(** * cc/main.cc of minigo: the concurrency and scheduling layer

    A shallow embedding of the parts of [cc/main.cc] that size inference
    batches, name output files, reload flags, synchronise the paired
    evaluation threads and talk to an external GTP engine, followed by the
    properties proved about them. *)

From Stdlib Require Import ZArith Lia Ascii String List DecimalString.
From Stdlib Require Import Floats.SpecFloat.
From Stdlib Require DecimalZ DecimalPos.
From stdpp Require Import gmap strings list.

Local Open Scope Z_scope.

(** ** Machine integers *)

(** [int] is 32 bits wide and [size_t] 64 bits wide on the platforms the
    program builds for.  Signed overflow has no defined result in C++; the
    model takes the two's complement one, and every property below that
    depends on the value is stated where no overflow occurs. *)
Module Int.
Definition min_int : Z := - 2 ^ 31.
Definition max_int : Z := 2 ^ 31 - 1.
Definition in_range (z : Z) : Prop := min_int <= z <= max_int.
Definition wrap (z : Z) : Z := (z + 2 ^ 31) mod 2 ^ 32 - 2 ^ 31.
Definition add (a b : Z) : Z := wrap (a + b).
Definition sub (a b : Z) : Z := wrap (a - b).
Definition mul (a b : Z) : Z := wrap (a * b).
(** [/] on [int] truncates towards zero. *)
Definition div (a b : Z) : Z := wrap (Z.quot a b).
End Int.

Module SizeT.
Definition modulus : Z := 2 ^ 64.
Definition in_range (z : Z) : Prop := 0 <= z < modulus.
Definition wrap (z : Z) : Z := z mod modulus.
Definition incr (z : Z) : Z := wrap (z + 1).
Definition decr (z : Z) : Z := wrap (z - 1).
End SizeT.

(** ** NewDualNetFactory: the batch size *)

(** What [NewBatchingFactory] is given: the model whose network it wraps and
    the batch size. *)
Record DualNetFactory := {
  factory_model : string;
  factory_batch_size : Z
}.

(** The [size_t batch_size] of [NewDualNetFactory], as a function of
    [FLAGS_virtual_losses], [num_parallel_games] and the [buffer_count] the
    network reports.  The arithmetic is on [int]; the result of [std::max]
    is converted to [size_t]. *)
Definition batch_size (virtual_losses num_parallel_games buffer_count : Z) : Z :=
  SizeT.wrap
    (Z.max
       (Int.div
          (Int.sub (Int.add (Int.mul virtual_losses num_parallel_games)
                            buffer_count) 1)
          buffer_count)
       virtual_losses).

Section Factory.
(** [NewDualNet(model_path)->GetBufferCount()], the inference engine's. *)
Variable GetBufferCount : string -> Z.
Variable FLAGS_virtual_losses : Z.

Definition NewDualNetFactory (model_path : string) (num_parallel_games : Z)
  : DualNetFactory :=
  let buffer_count := GetBufferCount model_path in
  {| factory_model := model_path;
     factory_batch_size :=
       batch_size FLAGS_virtual_losses num_parallel_games buffer_count |}.

(** The factories the three orchestrators build in their [Run]. *)
Definition SelfPlayer_factory (FLAGS_model : string) (FLAGS_parallel_games : Z) :=
  NewDualNetFactory FLAGS_model FLAGS_parallel_games.

Definition PairEvaluator_Model_factory (model_path : string)
    (FLAGS_parallel_games : Z) :=
  NewDualNetFactory model_path FLAGS_parallel_games.

Definition GtpEvaluator_factory (FLAGS_model : string) (FLAGS_parallel_games : Z) :=
  NewDualNetFactory FLAGS_model (Z.max (Int.div FLAGS_parallel_games 2) 1).
End Factory.

(** ** Strings *)

(** The Abseil string functions the program calls, on [string]. *)

(** [absl::StrCat] of an integer: its decimal digits, with a sign if it is
    negative. *)
Definition Z_to_string (z : Z) : string := NilZero.string_of_int (Z.to_int z).

Definition is_empty (s : string) : bool :=
  match s with EmptyString => true | String _ _ => false end.

(** [absl::ascii_isspace]: space, tab, line feed, vertical tab, form feed and
    carriage return. *)
Definition ascii_isspace (c : ascii) : bool := Ascii.is_space c.

Fixpoint StripLeadingAsciiWhitespace (s : string) : string :=
  match s with
  | EmptyString => EmptyString
  | String c s' => if ascii_isspace c then StripLeadingAsciiWhitespace s' else s
  end.

Fixpoint StripTrailingAsciiWhitespace (s : string) : string :=
  match s with
  | EmptyString => EmptyString
  | String c s' =>
      match StripTrailingAsciiWhitespace s' with
      | EmptyString => if ascii_isspace c then EmptyString else String c EmptyString
      | String _ _ as r => String c r
      end
  end.

Definition StripAsciiWhitespace (s : string) : string :=
  StripTrailingAsciiWhitespace (StripLeadingAsciiWhitespace s).

(** [absl::StrSplit(s, d)]: the pieces between occurrences of [d]; there is
    always at least one piece. *)
Fixpoint StrSplit (d : ascii) (s : string) : list string :=
  match s with
  | EmptyString => [EmptyString]
  | String c s' =>
      if Ascii.eqb c d then EmptyString :: StrSplit d s'
      else match StrSplit d s' with
           | piece :: pieces => String c piece :: pieces
           | [] => [String c EmptyString]
           end
  end.

(** [absl::StrSplit(s, d, absl::SkipEmpty())]. *)
Definition StrSplit_SkipEmpty (d : ascii) (s : string) : list string :=
  List.filter (fun piece => negb (is_empty piece)) (StrSplit d s).

(** [absl::StrSplit(s, absl::MaxSplits(d, 1))] converted to a [std::pair]:
    what comes before the first [d] and what comes after it; the second
    component is empty when there is no [d]. *)
Fixpoint StrSplit_MaxSplits1 (d : ascii) (s : string) : string * string :=
  match s with
  | EmptyString => (EmptyString, EmptyString)
  | String c s' =>
      if Ascii.eqb c d then (EmptyString, s')
      else let (before, after) := StrSplit_MaxSplits1 d s' in
           (String c before, after)
  end.

(** [s.substr(pos)], for [pos] at most the length of [s]. *)
Fixpoint substr (pos : nat) (s : string) : string :=
  match pos, s with
  | O, _ => s
  | S pos', String _ s' => substr pos' s'
  | S _, EmptyString => EmptyString
  end.

(** [s.c_str()] read as a C string, as [fprintf] and gflags read it: the
    characters before the first NUL. *)
Fixpoint c_str (s : string) : string :=
  match s with
  | EmptyString => EmptyString
  | String c s' =>
      if Ascii.eqb c Ascii.zero then EmptyString else String c (c_str s')
  end.

(** ** Output naming *)

(** An [absl::Time] that is not infinite, in nanoseconds since the Unix
    epoch. *)
Record Time := { unix_nanos : Z }.

(** [absl::ToUnixSeconds] rounds towards negative infinity. *)
Definition ToUnixSeconds (now : Time) : Z := unix_nanos now / 1000000000.

Definition FromUnixSeconds (secs : Z) : Time := {| unix_nanos := secs * 1000000000 |}.

(** The proleptic Gregorian date of the day [days] days after 1970-01-01. *)
Definition civil_from_days (days : Z) : Z * Z * Z :=
  let z := days + 719468 in
  let era := z / 146097 in
  let doe := z - era * 146097 in
  let yoe := (doe - doe / 1460 + doe / 36524 - doe / 146096) / 365 in
  let y := yoe + era * 400 in
  let doy := doe - (365 * yoe + yoe / 4 - yoe / 100) in
  let mp := (5 * doy + 2) / 153 in
  let d := doy - (153 * mp + 2) / 5 + 1 in
  let m := if mp <? 10 then mp + 3 else mp - 9 in
  (if m <=? 2 then y + 1 else y, m, d).

(** The day number of a date, counted from 1970-01-01. *)
Definition days_from_civil (y m d : Z) : Z :=
  let y := if m <=? 2 then y - 1 else y in
  let era := y / 400 in
  let yoe := y - era * 400 in
  let doy := (153 * (if 2 <? m then m - 3 else m + 9) + 2) / 5 + d - 1 in
  let doe := yoe * 365 + yoe / 4 - yoe / 100 + doy in
  era * 146097 + doe - 719468.

(** A number below 100 on two digits, as [%m], [%d] and [%H] print it. *)
Definition Format02d (v : Z) : string :=
  if v <? 10 then String "0" (Z_to_string v) else Z_to_string v.

(** [absl::FormatTime("%Y-%m-%d-%H", now, absl::UTCTimeZone())]. *)
Definition FormatTime_YmdH_UTC (now : Time) : string :=
  let secs := ToUnixSeconds now in
  let '(y, m, d) := civil_from_days (secs / 86400) in
  let hour := (secs mod 86400) / 3600 in
  Z_to_string y ++ "-" ++ Format02d m ++ "-" ++ Format02d d ++ "-"
    ++ Format02d hour.

(** [gethostname] either fills the 64 byte buffer with the host's name or
    fails, and then the name is ["unknown"]; [i] is a [size_t]. *)
Definition GetOutputName (gethostname : option string) (now : Time) (i : Z)
  : string :=
  let timestamp := ToUnixSeconds now in
  let hostname := match gethostname with
                  | Some name => name
                  | None => "unknown"
                  end in
  Z_to_string timestamp ++ "-" ++ hostname ++ "-" ++ Z_to_string i.

Section OutputDir.
(** [file::JoinPath], declared in [cc/file/path.h]. *)
Variable JoinPath : string -> string -> string.

Definition GetOutputDir (now : Time) (root_dir : string) : string :=
  let sub_dirs := FormatTime_YmdH_UTC now in
  JoinPath root_dir sub_dirs.
End OutputDir.

(** ** Fatal checks *)

(** A computation that [MG_CHECK] or [MG_FATAL] may abort, or in which a
    library may end the process. *)
Inductive outcome (A : Type) : Type :=
| Done (a : A)
| Fatal.
Arguments Done {A} a.
Arguments Fatal {A}.

(** ** SelfPlayer: reloading the flags *)

(** The command line flags, by name, with their current values as text.  The
    flags of this program are declared with [DEFINE_string], [DEFINE_bool],
    [DEFINE_int32], [DEFINE_uint64] and [DEFINE_double]; [model] and
    [flags_path], which are read back below, are string flags. *)
Definition flag_value (flags : gmap string string) (name : string) : string :=
  default EmptyString (flags !! name).

(** What a reload reaches outside the [SelfPlayer]: [file::GetModTime] and
    [file::ReadFile], which fail with [None], and gflags, which is a library
    and no part of this program.  [gflags files name value flags] is what
    [gflags::SetCommandLineOption(name, value)] assigns when the flags are
    [flags]: nothing when [name] is not the name of a flag, or [value] does
    not parse at the type of the flag or is refused by its validator; the
    new value of the flag when it is set; and for [flagfile], [fromenv] and
    [tryfromenv] also the values of the flags that it finds in the files and
    in the environment.  [None]: gflags ends the process, as it does for a
    flag file that it cannot read. *)
Record Files := {
  GetModTime : string -> option Z;
  ReadFile : string -> option string;
  gflags : string -> string -> gmap string string -> option (list (string * string))
}.

(** An assignment changes the value of a flag that is registered: the flags
    are registered before [main] runs, and none is added or dropped later. *)
Definition assign (flags : gmap string string) (nv : string * string)
  : gmap string string :=
  match flags !! fst nv with
  | Some _ => <[fst nv := snd nv]> flags
  | None => flags
  end.

(** [gflags::SetCommandLineOption], whose return value the program drops.
    [Fatal]: the process ends inside the call. *)
Definition SetCommandLineOption (files : Files) (name value : string)
    (flags : gmap string string) : outcome (gmap string string) :=
  match gflags files name value flags with
  | Some assigned => Done (List.fold_left assign assigned flags)
  | None => Fatal
  end.

(** The state [MaybeReloadFlags] works on: the flags and the [SelfPlayer]'s
    [flags_timestamp_], both guarded by [mutex_]. *)
Record SelfPlayer := {
  FLAGS : gmap string string;
  flags_timestamp_ : Z
}.

Definition FLAGS_model (self : SelfPlayer) : string := flag_value (FLAGS self) "model".
Definition FLAGS_flags_path (self : SelfPlayer) : string :=
  flag_value (FLAGS self) "flags_path".

Definition line_feed : ascii := "010"%char.

(** [line.length() > 2 && line[0] == '-' && line[1] == '-'] *)
Definition line_check (line : string) : bool :=
  (2 <? String.length line)%nat
  && match String.get 0 line, String.get 1 line with
     | Some c0, Some c1 => Ascii.eqb c0 "-" && Ascii.eqb c1 "-"
     | _, _ => false
     end.

(** The loop of [MaybeReloadFlags] over the lines of the file.  It returns
    the flags and the [SetCommandLineOption] calls made, in order, with the
    name and the value as they reach gflags through [c_str()]. *)
Fixpoint reload_lines (files : Files) (lines : list string)
    (flags : gmap string string) (calls : list (string * string))
  : outcome (gmap string string * list (string * string)) :=
  match lines with
  | [] => Done (flags, calls)
  | line :: lines' =>
      let line_comment := StrSplit_MaxSplits1 "#" line in
      let line := StripAsciiWhitespace (fst line_comment) in
      if is_empty line then reload_lines files lines' flags calls
      else if line_check line then
        let flag_value := StrSplit_MaxSplits1 "=" line in
        let name := substr 2 (fst flag_value) in
        let value := snd flag_value in
        match SetCommandLineOption files (c_str name) (c_str value) flags with
        | Fatal => Fatal
        | Done flags =>
            reload_lines files lines' flags
                         (calls ++ [(c_str name, c_str value)])
        end
      else Fatal
  end.

Definition MaybeReloadFlags (files : Files) (self : SelfPlayer)
  : outcome (SelfPlayer * list (string * string)) :=
  if is_empty (FLAGS_flags_path self) then Done (self, [])
  else
    match GetModTime files (FLAGS_flags_path self) with
    | None => Fatal
    | Some new_flags_timestamp =>
        if new_flags_timestamp =? flags_timestamp_ self then Done (self, [])
        else
          match ReadFile files (FLAGS_flags_path self) with
          | None => Fatal
          | Some contents =>
              let lines := StrSplit_SkipEmpty line_feed contents in
              match reload_lines files lines (FLAGS self) [] with
              | Fatal => Fatal
              | Done (flags, calls) =>
                  Done ({| FLAGS := flags;
                           flags_timestamp_ := new_flags_timestamp |}, calls)
              end
          end
    end.

(** The block of [SelfPlayer::ThreadRun] that runs under [mutex_] before each
    game, up to its [MG_CHECK]; what follows it in the block builds the
    game options and the player and changes neither flags nor timestamp. *)
Definition ThreadRun_reload (files : Files) (self : SelfPlayer) : outcome SelfPlayer :=
  let old_model := FLAGS_model self in
  match MaybeReloadFlags files self with
  | Fatal => Fatal
  | Done (self', _) =>
      if String.eqb old_model (FLAGS_model self') then Done self' else Fatal
  end.

(** The reload protocol in the words of its description: the lines of the
    file without their comments and surrounding whitespace, blank ones
    dropped; what it is for a line to begin with two dashes; and the
    override a line [--name=value] stands for. *)
Definition uncommented (line : string) : string :=
  StripAsciiWhitespace (fst (StrSplit_MaxSplits1 "#" line)).

Definition override_lines (contents : string) : list string :=
  List.filter (fun line => negb (is_empty line))
              (List.map uncommented (StrSplit line_feed contents)).

Definition begins_with_dashes (line : string) : bool := String.prefix "--" line.

Definition override_of (line : string) : string * string :=
  let (name, value) := StrSplit_MaxSplits1 "=" line in (substr 2 name, value).

(** The call that the program makes for a line: the name and the value
    of the override, each up to its first NUL. *)
Definition call_of (line : string) : string * string :=
  let (name, value) := override_of line in (c_str name, c_str value).

(** Overrides applied in order, each by a call of
    [gflags::SetCommandLineOption]. *)
Fixpoint apply_overrides (files : Files) (overrides : list (string * string))
    (flags : gmap string string) : outcome (gmap string string) :=
  match overrides with
  | [] => Done flags
  | nv :: overrides' =>
      match SetCommandLineOption files (fst nv) (snd nv) flags with
      | Fatal => Fatal
      | Done flags => apply_overrides files overrides' flags
      end
  end.

(** ** PairEvaluator::Barrier *)

Module Barrier.
(** The three [size_t] members, all guarded by the barrier's [mutex_]. *)
Record t := {
  count_ : Z;
  num_waiting_ : Z;
  generation_ : Z
}.

Definition make (count : Z) : t :=
  {| count_ := count; num_waiting_ := 0; generation_ := 0 |}.

(** [IncrementGeneration] also signals every thread that waits on
    [cond_var_]; in the system below such a thread may wake at any time. *)
Definition IncrementGeneration (b : t) : t :=
  {| count_ := count_ b;
     num_waiting_ := 0;
     generation_ := SizeT.incr (generation_ b) |}.

(** How a thread stands after a stretch of [Wait] run with the mutex held:
    it has returned, or it is inside [cond_var_.Wait], the mutex released,
    holding its local copy [generation]. *)
Inductive waiter :=
| Returned
| Blocked (generation : Z).

(** The test of the [while] loop of [Wait], made on entry to the loop and
    again after every wake-up: the body, [cond_var_.Wait], runs when
    [generation != generation_]. *)
Definition Wait_loop (generation : Z) (b : t) : waiter :=
  if negb (generation =? generation_ b) then Blocked generation else Returned.

(** [Wait], from taking the mutex to returning or to the first
    [cond_var_.Wait]. *)
Definition Wait (b : t) : t * waiter :=
  let b1 := {| count_ := count_ b;
               num_waiting_ := SizeT.incr (num_waiting_ b);
               generation_ := generation_ b |} in
  if num_waiting_ b1 =? count_ b1 then (IncrementGeneration b1, Returned)
  else
    let generation := generation_ b1 in
    (b1, Wait_loop generation b1).

Definition DecrementCount (b : t) : t :=
  let b1 := {| count_ := SizeT.decr (count_ b);
               num_waiting_ := num_waiting_ b;
               generation_ := generation_ b |} in
  if num_waiting_ b1 =? count_ b1 then IncrementGeneration b1 else b1.

(** *** The barrier shared by the threads of [PairEvaluator::Run] *)

(** A thread is outside the barrier's methods, inside [cond_var_.Wait], or
    has called [DecrementCount] and left. *)
Inductive thread :=
| Running
| Waiting (generation : Z)
| Stopped.

Record system := {
  barrier : t;
  threads : list thread
}.

(** What a thread can do next: call [Wait], wake up inside
    [cond_var_.Wait] (signalled or spuriously) and test the loop again, or
    call [DecrementCount] and stop. *)
Inductive action :=
| CallWait
| WakeUp
| CallDecrementCount.

Definition thread_of (w : waiter) : thread :=
  match w with
  | Returned => Running
  | Blocked generation => Waiting generation
  end.

(** The methods run under the mutex, so the threads interleave at the
    grain of these steps.  An action its thread cannot take leaves the
    system as it is. *)
Definition step (s : system) (ia : nat * action) : system :=
  let (i, a) := ia in
  match threads s !! i, a with
  | Some Running, CallWait =>
      let (b, w) := Wait (barrier s) in
      {| barrier := b; threads := <[i := thread_of w]> (threads s) |}
  | Some (Waiting generation), WakeUp =>
      {| barrier := barrier s;
         threads := <[i := thread_of (Wait_loop generation (barrier s))]>
                      (threads s) |}
  | Some Running, CallDecrementCount =>
      {| barrier := DecrementCount (barrier s);
         threads := <[i := Stopped]> (threads s) |}
  | _, _ => s
  end.

Definition run (schedule : list (nat * action)) (s : system) : system :=
  List.fold_left step schedule s.

(** [Run] makes the barrier for [num_games] and starts as many threads. *)
Definition start (num_games : nat) : system :=
  {| barrier := make (Z.of_nat num_games);
     threads := replicate num_games Running |}.

Definition running (s : system) : list thread :=
  List.filter (fun th => match th with Running => true | _ => false end)
              (threads s).
End Barrier.

(** ** Evaluation results *)

(** [black_wins] and [white_wins] are [std::atomic<int>]: an increment is
    one indivisible step and wraps around. *)
Record EvalResults := {
  name : string;
  black_wins : Z;
  white_wins : Z
}.

Definition incr_black_wins (r : EvalResults) : EvalResults :=
  {| name := name r; black_wins := Int.add (black_wins r) 1;
     white_wins := white_wins r |}.

Definition incr_white_wins (r : EvalResults) : EvalResults :=
  {| name := name r; black_wins := black_wins r;
     white_wins := Int.add (white_wins r) 1 |}.

Definition wins (r : EvalResults) : Z := black_wins r + white_wins r.

(** [player->result()] is a [float]; it is compared with the [int] zero. *)
Definition float_zero : spec_float := S754_zero false.
Definition float_one : spec_float := S754_finite false 1 0.
Definition float_minus_one : spec_float := S754_finite true 1 0.

(** ** PairEvaluator *)

(** The two [Model] objects of [PairEvaluator::Run], which every thread is
    handed by pointer. *)
Inductive ModelPtr :=
| cur_model
| prev_model.

(** The [results] of the two models, shared by the threads. *)
Record Models := {
  cur_results : EvalResults;
  prev_results : EvalResults
}.

Definition results_of (m : ModelPtr) (ms : Models) : EvalResults :=
  match m with
  | cur_model => cur_results ms
  | prev_model => prev_results ms
  end.

Definition update_results (m : ModelPtr) (f : EvalResults -> EvalResults)
    (ms : Models) : Models :=
  match m with
  | cur_model => {| cur_results := f (cur_results ms);
                    prev_results := prev_results ms |}
  | prev_model => {| cur_results := cur_results ms;
                     prev_results := f (prev_results ms) |}
  end.

Definition total_wins (ms : Models) : Z :=
  wins (cur_results ms) + wins (prev_results ms).

Section PairEvaluator.
(** [MctsPlayer], declared in [cc/mcts_player.h], through the calls
    [ThreadRun] makes.  [SuggestMove] searches with the network that the
    two players of a thread share, here named by the model whose factory
    made it for this move. *)
Context {MctsPlayer Coord : Type}.
Variable NewMctsPlayer : string -> MctsPlayer.
Variable SuggestMove : ModelPtr -> MctsPlayer -> Coord * MctsPlayer.
Variable PlayMove : Coord -> MctsPlayer -> MctsPlayer.
Variable game_over : MctsPlayer -> bool.
Variable result : MctsPlayer -> spec_float.

(** The locals of [ThreadRun] that its loop changes, and the moves played
    so far, each with the model whose network chose it. *)
Record pair_game := {
  player : MctsPlayer;
  other_player : MctsPlayer;
  factory : ModelPtr;
  other_factory : ModelPtr;
  moves : list (ModelPtr * Coord)
}.

(** The [while] loop of [ThreadRun]; [None] when [fuel] moves do not end
    the game.  The barrier holds the thread up at [Wait] and changes none
    of its locals. *)
Fixpoint play_pair (fuel : nat) (g : pair_game) : option pair_game :=
  if game_over (player g) then Some g
  else
    match fuel with
    | O => None
    | S fuel' =>
        let (move, p) := SuggestMove (factory g) (player g) in
        let p := PlayMove move p in
        let o := PlayMove move (other_player g) in
        play_pair fuel'
          {| player := o; other_player := p;
             factory := other_factory g; other_factory := factory g;
             moves := moves g ++ [(factory g, move)] |}
    end.

(** The end of [ThreadRun]: the check that the two players agree and the
    attribution of the win. *)
Definition attribute_win (model other_model : ModelPtr) (g : pair_game)
    (ms : Models) : outcome Models :=
  if SFeqb (result (player g)) (result (other_player g)) then
    let ms :=
      if SFltb float_zero (result (player g))
      then update_results model incr_black_wins ms else ms in
    let ms :=
      if SFltb (result (player g)) float_zero
      then update_results other_model incr_white_wins ms else ms in
    Done ms
  else Fatal.

Definition pair_start (model other_model : ModelPtr) (ms : Models) : pair_game :=
  {| player := NewMctsPlayer (name (results_of model ms));
     other_player := NewMctsPlayer (name (results_of other_model ms));
     factory := model; other_factory := other_model;
     moves := [] |}.

(** [PairEvaluator::ThreadRun] for one thread, with the models as they are
    when the thread starts ([ms]) and when its game ends ([ms']); the calls
    of the barrier are left to [Barrier.step]. *)
Definition PairEvaluator_ThreadRun (fuel : nat) (model other_model : ModelPtr)
    (swap_models : bool) (ms ms' : Models) : option (outcome Models) :=
  let (model, other_model) :=
    if swap_models then (other_model, model) else (model, other_model) in
  match play_pair fuel (pair_start model other_model ms) with
  | None => None
  | Some g => Some (attribute_win model other_model g ms')
  end.
End PairEvaluator.

(** ** GtpEvaluator *)

(** The two colours of [cc/color.h] a player can have, and [OtherColor]. *)
Inductive Color :=
| kBlack
| kWhite.

Definition OtherColor (color : Color) : Color :=
  match color with
  | kBlack => kWhite
  | kWhite => kBlack
  end.

Section GtpEvaluator.
(** [Coord] of [cc/coord.h] and the printing of a [Color]. *)
Context {Coord : Type}.
Variable ToKgs : Coord -> string.
Variable FromKgs : string -> Coord.
Variable kInvalid kResign : Coord.
Variable Coord_eqb : Coord -> Coord -> bool.
Variable Color_to_string : Color -> string.

(** A [GtpClient]: its colour and the two pipes to the engine.  [input_]
    holds the lines that the engine writes, each as it comes with its line
    feed; [output_] holds the lines written to the engine so far, and
    [output_ok_ lines] tells whether [fprintf] and [fflush] succeed when
    they bring what has been written to [lines]: the engine may have closed
    its end. *)
Record GtpClient := {
  color_ : Color;
  input_ : list string;
  output_ : list string;
  output_ok_ : list string -> bool
}.

(** [char buffer[100]], which [Send] hands to [getline] as it is: a line
    has room in it together with the NUL that [getline] appends.  For a
    longer line [getline] reallocates the array, which [malloc] did not
    make, and the behaviour is undefined. *)
Definition sizeof_buffer : nat := 100.

Definition fits_buffer (line : string) : bool :=
  (String.length line + 1 <=? sizeof_buffer)%nat.

(** The [for (;;)] loop of [Send].  [None]: [Send] does not return, as a
    line does not fit the buffer, or the input ends before a line that
    begins with [?] or [=]. *)
Fixpoint read_response (lines : list string) : option (option string * list string) :=
  match lines with
  | [] => None
  | response :: lines' =>
      if negb (fits_buffer response) then None
      else
        match response with
        | EmptyString => read_response lines'
        | String result payload =>
            if Ascii.eqb result "?" then Some (None, lines')
            else if Ascii.eqb result "=" then
              Some (Some (StripAsciiWhitespace payload), lines')
            else read_response lines'
        end
  end.

(** [Send]: [Some Fatal] when one of the checks on the write fails, [None]
    when the loop does not return. *)
Definition Send (msg : string) (c : GtpClient)
  : option (outcome (option string * GtpClient)) :=
  let output := output_ c ++ [(c_str msg ++ String line_feed "")%string] in
  if negb (output_ok_ c output) then Some Fatal
  else
    match read_response (input_ c) with
    | None => None
    | Some (response, lines') =>
        Some (Done (response,
                    {| color_ := color_ c; input_ := lines';
                       output_ := output; output_ok_ := output_ok_ c |}))
    end.

Definition set_color (color : Color) (c : GtpClient) : GtpClient :=
  {| color_ := color; input_ := input_ c; output_ := output_ c;
     output_ok_ := output_ok_ c |}.

Definition Play (move : Coord) (c : GtpClient) : option (outcome (bool * GtpClient)) :=
  let msg := ("play " ++ Color_to_string (color_ c) ++ " " ++ ToKgs move)%string in
  match Send msg c with
  | None => None
  | Some Fatal => Some Fatal
  | Some (Done (response, c)) =>
      let success := match response with Some _ => true | None => false end in
      Some (Done (success,
                  if success then set_color (OtherColor (color_ c)) c else c))
  end.

Definition GenMove (c : GtpClient) : option (outcome (Coord * GtpClient)) :=
  let msg := ("genmove " ++ Color_to_string (color_ c))%string in
  match Send msg c with
  | None => None
  | Some Fatal => Some Fatal
  | Some (Done (response, c)) =>
      let move := match response with
                  | Some text => FromKgs text
                  | None => kInvalid
                  end in
      Some (Done (move, if Coord_eqb move kInvalid then c
                        else set_color (OtherColor (color_ c)) c))
  end.

(** [MctsPlayer] through the calls [GtpEvaluator::ThreadRun] makes. *)
Context {MctsPlayer : Type}.
Variable SuggestMove : MctsPlayer -> Coord * MctsPlayer.
Variable PlayMove : Coord -> MctsPlayer -> MctsPlayer.
Variable game_over : MctsPlayer -> bool.

(** The [while] loop of [ThreadRun]; [None] when it does not come to its
    end: [fuel] rounds do not end the game, or a call of the client is fatal
    or does not return. *)
Fixpoint play_gtp (fuel : nat) (mcts_player : MctsPlayer) (gtp_client : GtpClient)
  : option (MctsPlayer * GtpClient) :=
  if game_over mcts_player then Some (mcts_player, gtp_client)
  else
    match fuel with
    | O => None
    | S fuel' =>
        let (move, mcts_player) := SuggestMove mcts_player in
        match Play move gtp_client with
        | Some (Done (played, gtp_client)) =>
            let move := if played then move else kResign in
            let mcts_player := PlayMove move mcts_player in
            if game_over mcts_player then Some (mcts_player, gtp_client)
            else
              match GenMove gtp_client with
              | Some (Done (reply, gtp_client)) =>
                  play_gtp fuel' (PlayMove reply mcts_player) gtp_client
              | _ => None
              end
        | _ => None
        end
    end.

End GtpEvaluator.

(** ** The factories of the other modes *)

(** [Gtp] builds its factory for one game, [Puzzle] for as many games as the
    SGF files have moves. *)
Definition Gtp_factory (GetBufferCount : string -> Z) (FLAGS_virtual_losses : Z)
    (FLAGS_model : string) : DualNetFactory :=
  NewDualNetFactory GetBufferCount FLAGS_virtual_losses FLAGS_model 1.

Definition Puzzle_factory (GetBufferCount : string -> Z) (FLAGS_virtual_losses : Z)
    (FLAGS_model : string) (parallel_games : Z) : DualNetFactory :=
  NewDualNetFactory GetBufferCount FLAGS_virtual_losses FLAGS_model parallel_games.

(** ** The random seed of a thread *)

(** The seed that [SelfPlayer::GameOptions::Init], [PairEvaluator::ThreadRun]
    and [GtpEvaluator::ThreadRun] give the player of thread [thread_id]:
    [random_seed] is unsigned and 64 bits wide, like [FLAGS_seed] that it is
    copied from, and the product is one of [int]s. *)
Definition thread_random_seed (random_seed thread_id : Z) : Z :=
  if negb (random_seed =? 0)
  then SizeT.wrap (random_seed + Int.mul 1299283 thread_id)
  else random_seed.

(** ** SelfPlayer::ThreadRun: the Bigtable specification *)

(** The start of [ThreadRun]: the pieces of [FLAGS_output_bigtable] between
    commas and [use_bigtable], unless the check on them is fatal. *)
Definition bigtable_check (FLAGS_output_bigtable : string)
  : outcome (list string * bool) :=
  let bigtable_spec := StrSplit "," FLAGS_output_bigtable in
  let use_bigtable := (length bigtable_spec =? 3)%nat in
  if negb (is_empty FLAGS_output_bigtable) && negb use_bigtable then Fatal
  else Done (bigtable_spec, use_bigtable).

(** ** LogEndGameInfo: the bad resignation *)

(** What [LogEndGameInfo] reads of a node of the history. *)
Record HistoryNode := {
  node_Q : spec_float;
  node_Q_perspective : spec_float
}.

(** The loop over the history, from move [i] on: the move it reports as a
    bad resignation, if any. *)
Fixpoint bad_resign_from (i : nat) (history : list HistoryNode)
    (resign_threshold result : spec_float) : option nat :=
  match history with
  | [] => None
  | node :: history' =>
      if SFltb (node_Q_perspective node) resign_threshold then
        if negb (Bool.eqb (SFltb (node_Q node) float_zero)
                          (SFltb result float_zero))
        then Some i else None
      else bad_resign_from (S i) history' resign_threshold result
  end.

Definition LogEndGameInfo_bad_resign (resign_enabled : bool)
    (resign_threshold result : spec_float) (history : list HistoryNode)
  : option nat :=
  if negb resign_enabled
  then bad_resign_from 0 history resign_threshold result
  else None.

(** ** GtpClient: the other methods *)

(** [Name]: the engine's answer to [name], or ["<unknown>"]. *)
Definition Name (c : GtpClient) : option (outcome (string * GtpClient)) :=
  match Send "name" c with
  | None => None
  | Some Fatal => Some Fatal
  | Some (Done (response, c)) =>
      Some (Done (default "<unknown>"%string response, c))
  end.

(** The constructor, once the engine runs and the pipes are open, [engine]
    being what the engine writes and [output_ok] how its end of the other
    pipe behaves: the client plays black first, and checks that the engine
    takes the board size [kN] and the komi, whose text is what
    [std::to_string] makes of it. *)
Definition GtpClient_new (kN : Z) (komi_text : string) (engine : list string)
    (output_ok : list string -> bool) : option (outcome GtpClient) :=
  let c := {| color_ := kBlack; input_ := engine; output_ := [];
              output_ok_ := output_ok |} in
  match Send ("boardsize " ++ Z_to_string kN) c with
  | None => None
  | Some Fatal => Some Fatal
  | Some (Done (None, _)) => Some Fatal
  | Some (Done (Some _, c)) =>
      match Send ("komi " ++ komi_text) c with
      | None => None
      | Some Fatal => Some Fatal
      | Some (Done (None, _)) => Some Fatal
      | Some (Done (Some _, c)) => Some (Done c)
      end
  end.

(** ** PairEvaluator::Run: the threads and their tally *)

(** The arguments [Run] binds for a thread. *)
Record pair_thread := {
  pair_thread_id : Z;
  pair_model : ModelPtr;
  pair_other_model : ModelPtr;
  pair_swap_models : bool
}.

Definition PairEvaluator_Run_threads (num_games : nat) : list pair_thread :=
  List.map
    (fun thread_id : nat =>
       {| pair_thread_id := Z.of_nat thread_id;
          pair_model := cur_model;
          pair_other_model := prev_model;
          pair_swap_models := negb (Z.land (Z.of_nat thread_id) 1 =? 0) |})
    (seq 0 num_games).

Section Tally.
Context {MctsPlayer Coord : Type}.
Variable result : MctsPlayer -> spec_float.

(** The ends of the threads of [Run], in the order in which they take
    place: each is given the model that played black, the one that played
    white and its finished game. *)
Fixpoint tally (games : list (ModelPtr * ModelPtr * @pair_game MctsPlayer Coord))
    (ms : Models) : outcome Models :=
  match games with
  | [] => Done ms
  | (model, other_model, g) :: games' =>
      match attribute_win result model other_model g ms with
      | Fatal => Fatal
      | Done ms => tally games' ms
      end
  end.
End Tally.

(** ** GtpEvaluator::Run: the threads *)

(** The two [EvalResults] of [GtpEvaluator::Run], by pointer. *)
Inductive ResultsPtr :=
| mcts_results
| gtp_results.

Record gtp_thread := {
  gtp_thread_id : nat;
  black_results : ResultsPtr;
  white_results : ResultsPtr;
  gtp_is_black : bool
}.

Definition is_gtp_results (r : ResultsPtr) : bool :=
  match r with
  | gtp_results => true
  | mcts_results => false
  end.

(** The loop of [Run] that starts the threads, from [thread_id] on, with
    [count] threads to go. *)
Fixpoint GtpEvaluator_Run_loop (thread_id count : nat) (black white : ResultsPtr)
  : list gtp_thread :=
  match count with
  | O => []
  | S count' =>
      {| gtp_thread_id := thread_id;
         black_results := black;
         white_results := white;
         gtp_is_black := is_gtp_results black |}
      :: GtpEvaluator_Run_loop (S thread_id) count' white black
  end.

Definition GtpEvaluator_Run_threads (FLAGS_parallel_games : nat) : list gtp_thread :=
  GtpEvaluator_Run_loop 0 FLAGS_parallel_games mcts_results gtp_results.

(** The check [ThreadRun] makes when it is thread 0. *)
Definition GtpEvaluator_ThreadRun_check (t : gtp_thread) : outcome unit :=
  if (gtp_thread_id t =? 0)%nat
  then if negb (gtp_is_black t) then Done tt else Fatal
  else Done tt.

(** The results of the player and of the engine, and the end of
    [ThreadRun], which counts the win. *)
Record GtpResults := {
  results_mcts : EvalResults;
  results_gtp : EvalResults
}.

Definition update_gtp_results (r : ResultsPtr) (f : EvalResults -> EvalResults)
    (rs : GtpResults) : GtpResults :=
  match r with
  | mcts_results => {| results_mcts := f (results_mcts rs);
                       results_gtp := results_gtp rs |}
  | gtp_results => {| results_mcts := results_mcts rs;
                      results_gtp := f (results_gtp rs) |}
  end.

Definition GtpEvaluator_ThreadRun_end (t : gtp_thread) (result : spec_float)
    (rs : GtpResults) : GtpResults :=
  let rs := if SFltb float_zero result
            then update_gtp_results (black_results t) incr_black_wins rs
            else rs in
  if SFltb result float_zero
  then update_gtp_results (white_results t) incr_white_wins rs
  else rs.

(** ** Puzzle: the positions *)

Section Puzzle.
Context {MctsPlayer Coord : Type}.
(** A player as [new MctsPlayer(factory->New(), options)] makes it. *)
Variable NewMctsPlayer : MctsPlayer.
Variable PlayMove : Coord -> MctsPlayer -> MctsPlayer.

(** A [Move] of an SGF file. *)
Record Move := {
  move_color : Color;
  move_c : Coord
}.

(** The loop over the moves of a game: the last of the players makes the
    puzzle for the move, and the move is played on those that are left.
    [None]: [back] of an empty vector. *)
Fixpoint game_puzzles (players : list MctsPlayer) (moves : list Move)
  : option (list (MctsPlayer * Move)) :=
  match moves with
  | [] => Some []
  | move :: moves' =>
      match last players with
      | None => None
      | Some back =>
          let players := removelast players in
          let players := List.map (PlayMove (move_c move)) players in
          match game_puzzles players moves' with
          | None => None
          | Some puzzles => Some ((back, move) :: puzzles)
          end
      end
  end.

(** The loop over the games, which makes a player for every move of a game
    before it goes through the moves. *)
Fixpoint Puzzle_puzzles (games : list (list Move)) : option (list (MctsPlayer * Move)) :=
  match games with
  | [] => Some []
  | moves :: games' =>
      let players := replicate (length moves) NewMctsPlayer in
      match game_puzzles players moves, Puzzle_puzzles games' with
      | Some puzzles, Some puzzles' => Some (puzzles ++ puzzles')
      | _, _ => None
      end
  end.

(** The [parallel_games] that [Puzzle] counts while it reads the files. *)
Definition Puzzle_parallel_games (games : list (list Move)) : Z :=
  List.fold_left (fun n moves => Int.add n (Z.of_nat (length moves))) games 0.
End Puzzle.

(** ** FormatInferenceInfo and WriteSgf *)

(** [MctsPlayer::InferenceInfo]: a model and the range of moves it chose. *)
Record InferenceInfo := {
  info_model : string;
  info_first_move : Z;
  info_last_move : Z
}.

Definition FormatInferenceInfo (inferences : list InferenceInfo) : string :=
  let parts :=
    List.map (fun info =>
                (info_model info ++ "(" ++ Z_to_string (info_first_move info)
                   ++ "," ++ Z_to_string (info_last_move info) ++ ")")%string)
             inferences in
  String.concat ", " parts.

Section WriteSgf.
Context {Coord : Type}.

(** What [WriteSgf] reads of an entry of a player's history: the colour to
    play at its node, the move and the comment. *)
Record HistoryEntry := {
  history_to_play : Color;
  history_c : Coord;
  history_comment : string
}.

(** What [WriteSgf] reads of a player; the resignation threshold and the
    komi come as the text [absl::StrCat] and the SGF writer make of them. *)
Record SgfPlayer := {
  sgf_name : string;
  sgf_history : list HistoryEntry;
  sgf_resign_threshold : string;
  sgf_komi : string;
  sgf_result_string : string;
  sgf_inferences : list InferenceInfo
}.

(** [sgf::MoveWithComment] and [sgf::CreateSgfOptions]. *)
Record MoveWithComment := {
  sgf_color : Color;
  sgf_c : Coord;
  sgf_comment : string
}.

Record CreateSgfOptions := {
  options_komi : string;
  options_result : string;
  options_black_name : string;
  options_white_name : string;
  options_game_comment : string
}.

(** [sgf::CreateSgfString], [file::JoinPath], [file::RecursivelyCreateDir]
    and [file::WriteFile]. *)
Variable CreateSgfString : list MoveWithComment -> CreateSgfOptions -> string.
Variable JoinPath : string -> string -> string.
Variable RecursivelyCreateDir : string -> bool.
Variable WriteFile : string -> string -> bool.

(** The loop of [WriteSgf] from move [i] on, over what is left of the two
    histories. *)
Fixpoint sgf_moves (write_comments log_names : bool)
    (resign_threshold name_b name_w : string) (i : nat)
    (history_b history_w : list HistoryEntry) : list MoveWithComment :=
  match history_b, history_w with
  | entry_b :: history_b', entry_w :: history_w' =>
      let h := if Nat.even i then entry_b else entry_w in
      let comment :=
        if write_comments then
          if (i =? 0)%nat then
            ("Resign Threshold: " ++ resign_threshold ++ String line_feed ""
               ++ history_comment h)%string
          else if log_names then
            ((if Nat.even i then name_b else name_w) ++ String line_feed ""
               ++ history_comment h)%string
          else history_comment h
        else EmptyString in
      {| sgf_color := history_to_play h; sgf_c := history_c h;
         sgf_comment := comment |}
      :: sgf_moves write_comments log_names resign_threshold name_b name_w
                   (S i) history_b' history_w'
  | _, _ => []
  end.

(** [WriteSgf] with the names given: the path and the text written. *)
Definition WriteSgf (output_dir output_name : string)
    (player_b : SgfPlayer) (name_b : string)
    (player_w : SgfPlayer) (name_w : string) (write_comments : bool)
  : outcome (string * string) :=
  if negb (RecursivelyCreateDir output_dir) then Fatal
  else if negb (length (sgf_history player_b) =? length (sgf_history player_w))%nat
  then Fatal
  else
    let log_names := negb (String.eqb name_b name_w) in
    let moves := sgf_moves write_comments log_names
                           (sgf_resign_threshold player_b) name_b name_w 0
                           (sgf_history player_b) (sgf_history player_w) in
    let options :=
      {| options_komi := sgf_komi player_b;
         options_result := sgf_result_string player_b;
         options_black_name := name_b;
         options_white_name := name_w;
         options_game_comment :=
           ("B inferences: " ++ FormatInferenceInfo (sgf_inferences player_b)
              ++ String line_feed ""
              ++ "W inferences: " ++ FormatInferenceInfo (sgf_inferences player_w))
           %string |} in
    let sgf_str := CreateSgfString moves options in
    let output_path := JoinPath output_dir (output_name ++ ".sgf") in
    if negb (WriteFile output_path sgf_str) then Fatal
    else Done (output_path, sgf_str).

(** The overloads that take the names from the players, and one player for
    both sides. *)
Definition WriteSgf_players (output_dir output_name : string)
    (player_b player_w : SgfPlayer) (write_comments : bool) :=
  WriteSgf output_dir output_name player_b (sgf_name player_b)
           player_w (sgf_name player_w) write_comments.

Definition WriteSgf_player (output_dir output_name : string)
    (player : SgfPlayer) (write_comments : bool) :=
  WriteSgf_players output_dir output_name player player write_comments.
End WriteSgf.

(** ** SelfPlayer::ThreadRun: game after game *)

(** The [do] loop of [ThreadRun] as far as the flags go: before each game
    the block under the mutex runs, with the files as they are by then. *)
Fixpoint ThreadRun_games (files_at : list Files) (self : SelfPlayer)
  : outcome SelfPlayer :=
  match files_at with
  | [] => Done self
  | files :: files_at' =>
      match ThreadRun_reload files self with
      | Fatal => Fatal
      | Done self => ThreadRun_games files_at' self
      end
  end.

(** ** Vocabulary of the properties *)

(** Whether the character [d] occurs in [s]. *)
Fixpoint contains (d : ascii) (s : string) : bool :=
  match s with
  | EmptyString => false
  | String c s' => Ascii.eqb c d || contains d s'
  end.


Definition first_char (s : string) : option ascii :=
  match s with
  | EmptyString => None
  | String c _ => Some c
  end.



(** In a paired game the models take turns, [black] first: the moves so far
    were chosen by [black] and [white] alternately, and the factory for the
    next move is that of the model whose turn it is. *)
Definition alternating {MctsPlayer Coord : Type} (black white : ModelPtr)
    (g : @pair_game MctsPlayer Coord) : Prop :=
  (forall k m c, moves g !! k = Some (m, c) ->
                 m = if Nat.even k then black else white)
  /\ factory g = (if Nat.even (length (moves g)) then black else white)
  /\ other_factory g = (if Nat.even (length (moves g)) then white else black).

(** A result that names a winner: above or below zero. *)
Definition decisive (r : spec_float) : bool :=
  SFltb float_zero r || SFltb r float_zero.

(** What holds of the barrier and the threads of [PairEvaluator::Run]
    between any two steps: [count_] is the number of threads that have not
    stopped, fewer calls of [Wait] than that are counted in [num_waiting_]
    (none once every thread has stopped), and no thread is held inside
    [Wait]. *)
Definition barrier_invariant (s : Barrier.system) : Prop :=
  let b := Barrier.barrier s in
  Barrier.count_ b = Z.of_nat (length (Barrier.running s))
  /\ 0 <= Barrier.generation_ b
  /\ (0 <= Barrier.num_waiting_ b < Barrier.count_ b
      \/ (Barrier.num_waiting_ b = 0 /\ Barrier.count_ b = 0))
  /\ Z.of_nat (length (Barrier.threads s)) < SizeT.modulus
  /\ Forall (fun th => forall generation, th <> Barrier.Waiting generation)
            (Barrier.threads s).

(** The host name [GetOutputName] puts in the name. *)
Definition hostname_of (gethostname : option string) : string :=
  match gethostname with
  | Some name => name
  | None => "unknown"
  end.

(** How often the character [d] occurs in [s]. *)
Fixpoint count_char (d : ascii) (s : string) : nat :=
  match s with
  | EmptyString => O
  | String c s' => if Ascii.eqb c d then S (count_char d s') else count_char d s'
  end.

(** The commands [play] and [genmove], and lists of commands in which they
    take turns, starting with [play] when [play_next] holds. *)
Definition is_play (command : string) : bool := String.prefix "play " command.
Definition is_genmove (command : string) : bool := String.prefix "genmove " command.

Fixpoint take_turns (play_next : bool) (commands : list string) : bool :=
  match commands with
  | [] => true
  | command :: commands' =>
      (if play_next then is_play command else is_genmove command)
      && take_turns (negb play_next) commands'
  end.

(** The model that plays black in the game of a thread. *)
Definition black_model (t : pair_thread) : ModelPtr :=
  if pair_swap_models t then pair_other_model t else pair_model t.

(** The wins counted for black and for white, over both models. *)
Definition black_total (ms : Models) : Z :=
  black_wins (cur_results ms) + black_wins (prev_results ms).

Definition white_total (ms : Models) : Z :=
  white_wins (cur_results ms) + white_wins (prev_results ms).

(** Every counter lies between zero and [bound]. *)
Definition counters_within (bound : Z) (ms : Models) : Prop :=
  0 <= black_wins (cur_results ms) <= bound
  /\ 0 <= white_wins (cur_results ms) <= bound
  /\ 0 <= black_wins (prev_results ms) <= bound
  /\ 0 <= white_wins (prev_results ms) <= bound.

(** The position a puzzle starts from: a new player with moves played. *)
Definition replayed {MctsPlayer Coord : Type} (NewMctsPlayer : MctsPlayer)
    (PlayMove : Coord -> MctsPlayer -> MctsPlayer)
    (moves : list (@Move Coord)) : MctsPlayer :=
  List.fold_left (fun player move => PlayMove (move_c move) player)
                 moves NewMctsPlayer.


(** A line that [Send] takes for the reply: it begins with [?] or [=]. *)
Definition is_reply (line : string) : bool :=
  match line with
  | EmptyString => false
  | String c _ => Ascii.eqb c "?" || Ascii.eqb c "="
  end.

(** ** Example inputs *)

Definition example_flags : gmap string string :=
  {[ "flags_path" := "flags.txt"; "komi" := "6.5"; "model" := "old.pb" ]}.

Definition example_self : SelfPlayer :=
  {| FLAGS := example_flags; flags_timestamp_ := 0 |}.

(** The library for the examples.  [komi] stands for a double flag: the
    example takes for it the numerals [d.d], like [7.5], and refuses every
    other text, like [abc]; that is less than [strtod] takes.  Every other
    flag of the examples is a string flag, which takes any text. *)
Definition is_digit (c : ascii) : bool :=
  (48 <=? nat_of_ascii c)%nat && (nat_of_ascii c <=? 57)%nat.

Fixpoint all_digits (s : string) : bool :=
  match s with
  | EmptyString => true
  | String c s' => is_digit c && all_digits s'
  end.

Definition decimal_numeral (s : string) : bool :=
  let (whole, fraction) := StrSplit_MaxSplits1 "." s in
  negb (is_empty whole) && all_digits whole && all_digits fraction.

Definition example_gflags (name value : string) (flags : gmap string string)
  : option (list (string * string)) :=
  if String.eqb name "komi"
  then Some (if decimal_numeral value then [(name, value)] else [])
  else Some [(name, value)].

(** A flags file last modified at time 5. *)
Definition file_at_5 (contents : string) : Files :=
  {| GetModTime := fun _ => Some 5; ReadFile := fun _ => Some contents;
     gflags := example_gflags |}.

Definition komi_files : Files := file_at_5 "--komi=7.5 # default".
Definition model_files : Files := file_at_5 "--model=new.pb".

(** A player with a history of two moves, to write as SGF. *)
Definition example_sgf_player : @SgfPlayer string :=
  {| sgf_name := "model";
     sgf_history :=
       [{| history_to_play := kBlack; history_c := "D4"%string;
           history_comment := "first" |};
        {| history_to_play := kWhite; history_c := "Q16"%string;
           history_comment := "second" |}];
     sgf_resign_threshold := "-0.9";
     sgf_komi := "7.5";
     sgf_result_string := "B+R";
     sgf_inferences := [] |}.


(** A stand-in for the players and coordinates that the evaluators are
    given: a coordinate is its KGS text, a player the list of the moves
    played on it, which always suggests [D4] and is over once a resignation
    has been played. *)
Module Toy.
Definition Coord : Type := string.
Definition MctsPlayer : Type := list string.
Definition ToKgs (c : Coord) : string := c.
Definition FromKgs (text : string) : Coord := text.
Definition kInvalid : Coord := "invalid".
Definition kResign : Coord := "resign".
Definition Coord_eqb : Coord -> Coord -> bool := String.eqb.
Definition Color_to_string (color : Color) : string :=
  match color with kBlack => "B" | kWhite => "W" end.
Definition SuggestMove (p : MctsPlayer) : Coord * MctsPlayer := ("D4", p).
Definition PlayMove (c : Coord) (p : MctsPlayer) : MctsPlayer := p ++ [c].
Definition game_over (p : MctsPlayer) : bool := existsb (String.eqb kResign) p.

(** An engine that takes a command and then answers with a move. *)
Definition answering_client : GtpClient :=
  {| color_ := kBlack;
     input_ := [("=" ++ String line_feed "")%string; String line_feed "";
                ("= Q16" ++ String line_feed "")%string; String line_feed ""];
     output_ := [];
     output_ok_ := fun _ => true |}.

(** An engine that refuses the first command it is sent. *)
Definition refusing_client : GtpClient :=
  {| color_ := kBlack;
     input_ := [String line_feed ""; ("? illegal move" ++ String line_feed "")%string];
     output_ := [];
     output_ok_ := fun _ => true |}.


Fixpoint result_from (to_move : Color) (p : MctsPlayer) : spec_float :=
  match p with
  | [] => float_zero
  | c :: p' =>
      if String.eqb c kResign
      then match to_move with
           | kBlack => float_minus_one
           | kWhite => float_one
           end
      else result_from (OtherColor to_move) p'
  end.

Definition result (p : MctsPlayer) : spec_float := result_from kBlack p.


Definition no_wins : GtpResults :=
  {| results_mcts := {| name := "minigo"; black_wins := 0; white_wins := 0 |};
     results_gtp := {| name := "engine"; black_wins := 0; white_wins := 0 |} |}.
End Toy.

(** A stand-in for the players of a paired game: a player is the number of
    moves played on it, the game is over after two moves, and both players
    report the result [r]. *)
Module PairToy.
Definition MctsPlayer : Type := nat.
Definition Coord : Type := unit.
Definition NewMctsPlayer (_ : string) : MctsPlayer := O.
Definition SuggestMove (_ : ModelPtr) (p : MctsPlayer) : Coord * MctsPlayer := (tt, p).
Definition PlayMove (_ : Coord) (p : MctsPlayer) : MctsPlayer := S p.
Definition game_over (p : MctsPlayer) : bool := (2 <=? p)%nat.
Definition result (r : spec_float) (_ : MctsPlayer) : spec_float := r.

Definition no_wins : Models :=
  {| cur_results := {| name := "cur"; black_wins := 0; white_wins := 0 |};
     prev_results := {| name := "prev"; black_wins := 0; white_wins := 0 |} |}.

Definition finished : pair_game :=
  {| player := 2%nat; other_player := 2%nat;
     factory := cur_model; other_factory := prev_model;
     moves := [(cur_model, tt); (prev_model, tt)] |}.
End PairToy.

(** The ceiling of [a / b] for positive [b]. *)
Definition ceil_div (a b : Z) : Z := - ((- a) / b).

(** * Properties *)

(** ** Batch size *)

Lemma Int_wrap_id z : Int.in_range z -> Int.wrap z = z.
Proof.
  unfold Int.in_range, Int.min_int, Int.max_int, Int.wrap. intros H.
  rewrite Z.mod_small by lia. lia.
Qed.

Lemma SizeT_wrap_id z : SizeT.in_range z -> SizeT.wrap z = z.
Proof. unfold SizeT.in_range, SizeT.wrap. intros H. now apply Z.mod_small. Qed.

Lemma ceil_div_quot a b :
  0 <= a -> 0 < b -> Z.quot (a + b - 1) b = ceil_div a b.
Proof.
  intros Ha Hb. unfold ceil_div.
  rewrite Z.quot_div_nonneg by lia.
  pose proof (Z.div_mod (a + b - 1) b ltac:(lia)) as E1.
  pose proof (Z.mod_pos_bound (a + b - 1) b Hb) as B1.
  pose proof (Z.div_mod (- a) b ltac:(lia)) as E2.
  pose proof (Z.mod_pos_bound (- a) b Hb) as B2.
  nia.
Qed.

Lemma ceil_div_spec a b :
  0 < b -> b * (ceil_div a b - 1) < a <= b * ceil_div a b.
Proof.
  intros Hb. unfold ceil_div.
  pose proof (Z.div_mod (- a) b ltac:(lia)) as E.
  pose proof (Z.mod_pos_bound (- a) b Hb) as B.
  nia.
Qed.

Lemma ceil_div_le a b : 0 <= a -> 0 < b -> 0 <= ceil_div a b <= a.
Proof.
  intros Ha Hb. pose proof (ceil_div_spec a b Hb). nia.
Qed.

Lemma batch_size_no_overflow V W B :
  1 <= V -> 1 <= W -> 1 <= B -> V * W + B <= Int.max_int ->
  batch_size V W B = Z.max (ceil_div (V * W) B) V.
Proof.
  intros HV HW HB Hmax. unfold batch_size, Int.mul, Int.add, Int.sub, Int.div.
  assert (HVW : 1 <= V * W) by nia.
  assert (R : forall z, 0 <= z <= Int.max_int -> Int.wrap z = z).
  { intros z Hz. apply Int_wrap_id. unfold Int.in_range, Int.min_int. lia. }
  rewrite (R (V * W)) by lia.
  rewrite (R (V * W + B)) by lia.
  rewrite (R (V * W + B - 1)) by lia.
  rewrite ceil_div_quot by lia.
  pose proof (ceil_div_le (V * W) B ltac:(lia) ltac:(lia)) as Hc.
  rewrite (R (ceil_div (V * W) B)) by lia.
  apply SizeT_wrap_id. unfold SizeT.in_range, SizeT.modulus.
  unfold Int.max_int in *. lia.
Qed.

(** C2, as the code has it: for [V], [W], [B] at least 1 whose [V * W + B]
    fits an [int], the batch size is [max (ceil (V * W / B)) V]; it is then
    at least [V] and at least [ceil (V * W / B)].  For [W = 32], [V = 8],
    [B = 8] it is 32. *)
Theorem C2_batch_size_formula V W B :
  1 <= V -> 1 <= W -> 1 <= B -> V * W + B <= Int.max_int ->
  batch_size V W B = Z.max (ceil_div (V * W) B) V
  /\ V <= batch_size V W B
  /\ ceil_div (V * W) B <= batch_size V W B
  /\ batch_size 8 32 8 = 32.
Proof.
  intros HV HW HB Hmax.
  rewrite (batch_size_no_overflow V W B) by assumption.
  split; [reflexivity|]. split; [lia|]. split; [lia|]. reflexivity.
Qed.

Lemma C2_batch_size_formula_witness :
  batch_size 8 32 8 = Z.max (ceil_div (8 * 32) 8) 8
  /\ 8 <= batch_size 8 32 8
  /\ ceil_div (8 * 32) 8 <= batch_size 8 32 8
  /\ batch_size 8 32 8 = 32.
Proof.
  apply (C2_batch_size_formula 8 32 8); unfold Int.max_int; lia.
Defined.

(** Whatever an overflowing [int] expression yields, the value handed to
    [NewBatchingFactory] is an [int] converted to [size_t], never [2 ^ 32]. *)
Lemma int_to_size_t_not_2_32 r : Int.in_range r -> SizeT.wrap r <> 2 ^ 32.
Proof.
  unfold Int.in_range, Int.min_int, Int.max_int, SizeT.wrap, SizeT.modulus.
  intros H E. destruct (Z_lt_le_dec r 0).
  - assert (r mod 2 ^ 64 = r + 2 ^ 64).
    { symmetry. apply Z.mod_unique with (q := -1); lia. }
    lia.
  - rewrite Z.mod_small in E by lia. lia.
Qed.

(** C2 as stated fails where the product leaves the range of [int]: for
    [V = W = 65536] and [B = 1] the claimed size is [2 ^ 32], which no [int]
    converted to [size_t] equals, and the code gives 65536. *)
Lemma C2_counterexample_overflow :
  1 <= 65536 /\ 1 <= 1
  /\ batch_size 65536 65536 1 = 65536
  /\ Z.max (ceil_div (65536 * 65536) 1) 65536 = 4294967296
  /\ batch_size 65536 65536 1 <> Z.max (ceil_div (65536 * 65536) 1) 65536
  /\ (forall r, Int.in_range r ->
      SizeT.wrap r <> Z.max (ceil_div (65536 * 65536) 1) 65536).
Proof.
  split; [lia|]. split; [lia|]. split; [reflexivity|]. split; [reflexivity|].
  split; [vm_compute; discriminate|].
  intros r Hr. apply (int_to_size_t_not_2_32 r Hr).
Qed.

(** C10: [GtpEvaluator::Run] builds its factory for
    [max (parallel_games / 2) 1] workers, where [SelfPlayer] and
    [PairEvaluator] build theirs for [parallel_games] workers; its batch
    size is the one [NewDualNetFactory] derives for that many workers,
    [max (ceil (V * max (parallel_games / 2) 1 / B)) V]. *)
Theorem C10_gtp_factory_half_concurrency
    (GetBufferCount : string -> Z) (V : Z) (model : string) (parallel_games : Z) :
  let B := GetBufferCount model in
  let W := Z.max (Z.quot parallel_games 2) 1 in
  Int.in_range parallel_games ->
  GtpEvaluator_factory GetBufferCount V model parallel_games
    = NewDualNetFactory GetBufferCount V model W
  /\ factory_batch_size (GtpEvaluator_factory GetBufferCount V model parallel_games)
     = batch_size V W B
  /\ 1 <= W
  /\ (2 <= parallel_games -> 2 * W <= parallel_games <= 2 * W + 1)
  /\ factory_batch_size (SelfPlayer_factory GetBufferCount V model parallel_games)
     = batch_size V parallel_games B
  /\ factory_batch_size
       (PairEvaluator_Model_factory GetBufferCount V model parallel_games)
     = batch_size V parallel_games B
  /\ (1 <= V -> 1 <= B -> V * W + B <= Int.max_int ->
      factory_batch_size
        (GtpEvaluator_factory GetBufferCount V model parallel_games)
      = Z.max (ceil_div (V * W) B) V)
  /\ (1 <= V -> 1 <= B -> 1 <= parallel_games ->
      V * parallel_games + B <= Int.max_int ->
      batch_size V parallel_games B
      = Z.max (ceil_div (V * parallel_games) B) V).
Proof.
  intros B W Hpg.
  assert (Hq : Int.div parallel_games 2 = Z.quot parallel_games 2).
  { unfold Int.div. apply Int_wrap_id.
    unfold Int.in_range, Int.min_int, Int.max_int in *.
    Z.quot_rem_to_equations. lia. }
  assert (HW : 1 <= W) by (subst W; lia).
  unfold GtpEvaluator_factory, SelfPlayer_factory, PairEvaluator_Model_factory,
    NewDualNetFactory; simpl. rewrite Hq. fold W. fold B.
  split; [reflexivity|]. split; [reflexivity|]. split; [exact HW|].
  split.
  { intros H2. subst W. rewrite Z.quot_div_nonneg by lia.
    Z.div_mod_to_equations. lia. }
  split; [reflexivity|]. split; [reflexivity|].
  split; intros; apply batch_size_no_overflow; assumption.
Qed.

Lemma C10_gtp_factory_half_concurrency_witness :
  factory_batch_size (GtpEvaluator_factory (fun _ => 8) 8 "model.pb" 32) = 16
  /\ factory_batch_size (SelfPlayer_factory (fun _ => 8) 8 "model.pb" 32) = 32.
Proof.
  assert (Hpg : Int.in_range 32)
    by (unfold Int.in_range, Int.min_int, Int.max_int; lia).
  pose proof (C10_gtp_factory_half_concurrency (fun _ => 8) 8 "model.pb" 32 Hpg)
    as H.
  cbv zeta in H.
  destruct H as (_ & _ & _ & _ & H5 & _ & H7 & H8).
  split.
  - rewrite H7; [reflexivity | lia | lia | vm_compute; discriminate].
  - rewrite H5. apply H8; [lia | lia | lia | vm_compute; discriminate].
Defined.

(** C10 as stated fails where the product leaves the range of [int]: for
    [V = 65536], [parallel_games = 131072] and [B = 1] the factory is made
    for 65536 workers, the claimed size is [2 ^ 32], and the code gives
    65536. *)
Lemma C10_counterexample_overflow :
  Int.in_range 131072
  /\ Z.max (Z.quot 131072 2) 1 = 65536
  /\ factory_batch_size
       (GtpEvaluator_factory (fun _ => 1) 65536 "model.pb" 131072) = 65536
  /\ Z.max (ceil_div (65536 * Z.max (Z.quot 131072 2) 1) 1) 65536 = 4294967296
  /\ factory_batch_size
       (GtpEvaluator_factory (fun _ => 1) 65536 "model.pb" 131072)
     <> Z.max (ceil_div (65536 * Z.max (Z.quot 131072 2) 1) 1) 65536.
Proof.
  split; [unfold Int.in_range, Int.min_int, Int.max_int; lia|].
  split; [reflexivity|]. split; [reflexivity|]. split; [reflexivity|].
  vm_compute. discriminate.
Qed.

(** ** Output naming *)

Lemma year_of_era_bounds doe :
  0 <= doe <= 146096 ->
  let yoe := (doe - doe / 1460 + doe / 36524 - doe / 146096) / 365 in
  0 <= yoe <= 399 /\ 0 <= doe - (365 * yoe + yoe / 4 - yoe / 100) <= 365.
Proof. intros H. cbv zeta. Z.div_mod_to_equations. lia. Qed.

(** The date computed for a day number is a date of the calendar, and it is
    the date of that day. *)
Lemma civil_from_days_spec days :
  let '(y, m, d) := civil_from_days days in
  days_from_civil y m d = days /\ 1 <= m <= 12 /\ 1 <= d <= 31.
Proof.
  unfold civil_from_days.
  set (z := days + 719468).
  set (era := z / 146097).
  set (doe := z - era * 146097).
  assert (Hdoe : 0 <= doe <= 146096)
    by (subst doe era; Z.div_mod_to_equations; lia).
  pose proof (year_of_era_bounds doe Hdoe) as Hy. cbv zeta in Hy.
  set (yoe := (doe - doe / 1460 + doe / 36524 - doe / 146096) / 365) in *.
  set (doy := doe - (365 * yoe + yoe / 4 - yoe / 100)) in *.
  set (mp := (5 * doy + 2) / 153).
  assert (Hmp : 0 <= mp <= 11) by (subst mp; Z.div_mod_to_equations; lia).
  assert (Hd : 1 <= doy - (153 * mp + 2) / 5 + 1 <= 31)
    by (subst mp; Z.div_mod_to_equations; lia).
  assert (Hera : (yoe + era * 400) / 400 = era)
    by (Z.div_mod_to_equations; lia).
  unfold days_from_civil.
  destruct (mp <? 10) eqn:E; [apply Z.ltb_lt in E | apply Z.ltb_ge in E].
  - replace (mp + 3 <=? 2) with false by (symmetry; apply Z.leb_gt; lia).
    replace (2 <? mp + 3) with true by (symmetry; apply Z.ltb_lt; lia).
    replace (mp + 3 - 3) with mp by lia.
    rewrite Hera. replace (yoe + era * 400 - era * 400) with yoe by lia.
    split; [|lia]. fold doy. subst doy doe z. lia.
  - replace (mp - 9 <=? 2) with true by (symmetry; apply Z.leb_le; lia).
    replace (2 <? mp - 9) with false by (symmetry; apply Z.ltb_ge; lia).
    replace (mp - 9 + 9) with mp by lia.
    replace (yoe + era * 400 + 1 - 1) with (yoe + era * 400) by lia.
    rewrite Hera. replace (yoe + era * 400 - era * 400) with yoe by lia.
    split; [|lia]. fold doy. subst doy doe z. lia.
Qed.

(** C9: the base file name is the Unix seconds of the time, the host name
    and the worker index joined by dashes, ["1700000000-h1-3"] for
    1700000000, [h1] and 3; the output directory is the root joined with the
    [%Y-%m-%d-%H] string of the time in UTC, which names the hour of the
    calendar that the time falls in. *)
Theorem C9_output_naming
    (JoinPath : string -> string -> string) (now : Time) (i : Z)
    (hostname root_dir : string) :
  GetOutputName (Some hostname) now i
    = (Z_to_string (ToUnixSeconds now) ++ "-" ++ hostname ++ "-"
         ++ Z_to_string i)%string
  /\ GetOutputName None now i
     = (Z_to_string (ToUnixSeconds now) ++ "-unknown-" ++ Z_to_string i)%string
  /\ GetOutputName (Some "h1"%string) (FromUnixSeconds 1700000000) 3
     = "1700000000-h1-3"%string
  /\ GetOutputDir JoinPath now root_dir
     = JoinPath root_dir (FormatTime_YmdH_UTC now)
  /\ (exists y m d h,
        FormatTime_YmdH_UTC now
          = (Z_to_string y ++ "-" ++ Format02d m ++ "-" ++ Format02d d ++ "-"
               ++ Format02d h)%string
        /\ 1 <= m <= 12 /\ 1 <= d <= 31 /\ 0 <= h <= 23
        /\ (days_from_civil y m d * 24 + h) * 3600 <= ToUnixSeconds now
           < (days_from_civil y m d * 24 + h + 1) * 3600)
  /\ GetOutputDir JoinPath (FromUnixSeconds 1700000000) root_dir
     = JoinPath root_dir "2023-11-14-22".
Proof.
  split; [reflexivity|]. split; [reflexivity|]. split; [reflexivity|].
  split; [reflexivity|]. split; [|vm_compute; reflexivity].
  unfold FormatTime_YmdH_UTC.
  pose proof (civil_from_days_spec (ToUnixSeconds now / 86400)) as Hc.
  destruct (civil_from_days (ToUnixSeconds now / 86400)) as [[y m] d].
  destruct Hc as (Hdays & Hm & Hd).
  exists y, m, d, (ToUnixSeconds now mod 86400 / 3600).
  split; [reflexivity|]. split; [assumption|]. split; [assumption|].
  rewrite Hdays. Z.div_mod_to_equations. lia.
Qed.

(** ** Strings *)

Lemma append_String c (s t : string) : (String c s ++ t)%string = String c (s ++ t).
Proof. reflexivity. Qed.

Lemma append_empty_l (t : string) : (EmptyString ++ t)%string = t.
Proof. reflexivity. Qed.

Lemma append_empty_r (s : string) : (s ++ EmptyString)%string = s.
Proof.
  induction s as [|c s IH]; [reflexivity|]. now rewrite append_String, IH.
Qed.





Lemma StrSplit_nonempty d s : StrSplit d s <> [].
Proof.
  destruct s as [|c s]; simpl; [discriminate|].
  destruct (Ascii.eqb c d); [discriminate|].
  destruct (StrSplit d s); discriminate.
Qed.

(** [StrSplit] cuts at every [d]: the pieces have no [d] in them and,
    joined by [d], give the string back. *)
Lemma StrSplit_spec d s :
  String.concat (String d EmptyString) (StrSplit d s) = s
  /\ Forall (fun piece => contains d piece = false) (StrSplit d s).
Proof.
  induction s as [|c s [IH1 IH2]].
  - split; [reflexivity|]. constructor; [reflexivity | constructor].
  - simpl. pose proof (StrSplit_nonempty d s) as Hne.
    destruct (StrSplit d s) as [|piece pieces] eqn:E; [congruence|].
    destruct (Ascii.eqb c d) eqn:Hc.
    + apply Ascii.eqb_eq in Hc. subst c. split.
      * change (String.concat (String d EmptyString)
                  (EmptyString :: piece :: pieces))
          with (String d (String.concat (String d EmptyString) (piece :: pieces))).
        now rewrite IH1.
      * constructor; [reflexivity | assumption].
    + inversion_clear IH2 as [|? ? Hp Hps]. split.
      * rewrite <- IH1. destruct pieces; reflexivity.
      * constructor; [simpl; now rewrite Hc, Hp | assumption].
Qed.

(** ** Reloading the flags *)

Lemma filter_uncommented_skip_empty (pieces : list string) :
  List.filter (fun line => negb (is_empty line))
    (List.map uncommented
       (List.filter (fun piece => negb (is_empty piece)) pieces))
  = List.filter (fun line => negb (is_empty line)) (List.map uncommented pieces).
Proof.
  induction pieces as [|piece pieces IH]; [reflexivity|].
  destruct piece as [|c piece]; simpl.
  - exact IH.
  - destruct (is_empty (uncommented (String c piece))); simpl; now rewrite IH.
Qed.

Lemma override_of_eq line :
  override_of line
  = (substr 2 (fst (StrSplit_MaxSplits1 "=" line)),
     snd (StrSplit_MaxSplits1 "=" line)).
Proof.
  unfold override_of. now destruct (StrSplit_MaxSplits1 "=" line).
Qed.

Lemma call_of_eq line :
  call_of line
  = (c_str (substr 2 (fst (StrSplit_MaxSplits1 "=" line))),
     c_str (snd (StrSplit_MaxSplits1 "=" line))).
Proof. unfold call_of. now rewrite override_of_eq. Qed.


Lemma reload_lines_cons files line lines flags calls :
  reload_lines files (line :: lines) flags calls =
    if is_empty (uncommented line) then reload_lines files lines flags calls
    else if line_check (uncommented line) then
      let nv := call_of (uncommented line) in
      match SetCommandLineOption files (fst nv) (snd nv) flags with
      | Fatal => Fatal
      | Done flags => reload_lines files lines flags (calls ++ [nv])
      end
    else Fatal.
Proof. rewrite call_of_eq. reflexivity. Qed.

(** The loop makes the calls of the lines that are left once comments,
    whitespace and blank lines are gone, in order, unless one of the lines
    fails its check or the process ends in a call. *)
Lemma reload_lines_spec files lines flags calls :
  let kept := List.filter (fun line => negb (is_empty line))
                          (List.map uncommented lines) in
  reload_lines files lines flags calls =
    if forallb line_check kept
    then match apply_overrides files (List.map call_of kept) flags with
         | Done flags' => Done (flags', calls ++ List.map call_of kept)
         | Fatal => Fatal
         end
    else Fatal.
Proof.
  cbv zeta. revert flags calls.
  induction lines as [|line lines IH]; intros flags calls.
  - simpl. now rewrite app_nil_r.
  - rewrite reload_lines_cons. cbn [List.map List.filter].
    destruct (is_empty (uncommented line)) eqn:He; cbn [negb].
    + apply IH.
    + cbn [forallb List.map].
      destruct (line_check (uncommented line)) eqn:Hc; cbn [andb];
        [|reflexivity].
      cbv zeta. cbn [apply_overrides].
      destruct (SetCommandLineOption files _ _ flags) as [flags1|].
      * rewrite IH. destruct (forallb line_check _); [|reflexivity].
        destruct (apply_overrides files _ flags1); [|reflexivity].
        now rewrite <- app_assoc.
      * now destruct (forallb line_check _).
Qed.


Lemma StrSplit_MaxSplits1_at d before after :
  contains d before = false ->
  StrSplit_MaxSplits1 d (before ++ String d after) = (before, after).
Proof.
  induction before as [|c before IH]; intros H.
  - change (EmptyString ++ String d after)%string with (String d after).
    simpl. now rewrite Ascii.eqb_refl.
  - change (String c before ++ String d after)%string
      with (String c (before ++ String d after)).
    simpl in *. apply orb_false_elim in H as [Hc Hb].
    rewrite Hc, (IH Hb). reflexivity.
Qed.




(** A reload that reads the file makes the calls of its lines, or is fatal
    when one of them fails the check or the process ends in a call. *)
Lemma MaybeReloadFlags_read files self ts contents :
  is_empty (FLAGS_flags_path self) = false ->
  GetModTime files (FLAGS_flags_path self) = Some ts ->
  ts <> flags_timestamp_ self ->
  ReadFile files (FLAGS_flags_path self) = Some contents ->
  MaybeReloadFlags files self =
    if forallb line_check (override_lines contents)
    then match apply_overrides files
                 (List.map call_of (override_lines contents)) (FLAGS self) with
         | Done flags =>
             Done ({| FLAGS := flags; flags_timestamp_ := ts |},
                   List.map call_of (override_lines contents))
         | Fatal => Fatal
         end
    else Fatal.
Proof.
  intros Hpath Hmod Hts Hread. unfold MaybeReloadFlags.
  rewrite Hpath, Hmod. apply Z.eqb_neq in Hts. rewrite Hts, Hread. cbv zeta.
  rewrite reload_lines_spec. cbv zeta.
  unfold StrSplit_SkipEmpty. rewrite filter_uncommented_skip_empty.
  fold (override_lines contents).
  destruct (forallb line_check (override_lines contents)); [|reflexivity].
  now destruct (apply_overrides files _ (FLAGS self)).
Qed.



(** C8: the block that [SelfPlayer::ThreadRun] runs before each game goes on
    only if the model path after the reload of the flags is the one from
    before it; a reload that leaves another model path is fatal. *)
Theorem C8_model_switch_rejected (files : Files) (self : SelfPlayer) :
  (forall self',
     ThreadRun_reload files self = Done self' ->
     FLAGS_model self' = FLAGS_model self
     /\ exists calls, MaybeReloadFlags files self = Done (self', calls))
  /\ (forall self' calls,
        MaybeReloadFlags files self = Done (self', calls) ->
        FLAGS_model self' <> FLAGS_model self ->
        ThreadRun_reload files self = Fatal)
  /\ (forall self' calls,
        MaybeReloadFlags files self = Done (self', calls) ->
        FLAGS_model self' = FLAGS_model self ->
        ThreadRun_reload files self = Done self')
  /\ (MaybeReloadFlags files self = Fatal -> ThreadRun_reload files self = Fatal)
  /\ (exists self',
        MaybeReloadFlags model_files example_self
          = Done (self', [("model"%string, "new.pb"%string)])
        /\ FLAGS_model example_self = "old.pb"%string
        /\ FLAGS_model self' = "new.pb"%string)
  /\ ThreadRun_reload model_files example_self = Fatal
  /\ (exists self', ThreadRun_reload komi_files example_self = Done self').
Proof.
  unfold ThreadRun_reload.
  split.
  { intros self'. destruct (MaybeReloadFlags files self) as [[s calls]|];
      [|discriminate].
    destruct (String.eqb_spec (FLAGS_model self) (FLAGS_model s)) as [E|E];
      [|discriminate].
    intros [= ->]. split; [congruence | now exists calls]. }
  split.
  { intros self' calls -> Hne.
    destruct (String.eqb_spec (FLAGS_model self) (FLAGS_model self'));
      congruence. }
  split.
  { intros self' calls -> He. rewrite He, String.eqb_refl. reflexivity. }
  split; [now intros ->|].
  split.
  { eexists. split; [vm_compute; reflexivity|]. split; vm_compute; reflexivity. }
  split; [vm_compute; reflexivity|].
  eexists. vm_compute. reflexivity.
Qed.

(** ** The GTP client *)

Lemma read_response_skip skipped lines :
  Forall (fun line => fits_buffer line = true /\ is_reply line = false) skipped ->
  read_response (skipped ++ lines) = read_response lines.
Proof.
  induction 1 as [|line skipped [Hfit Hline] _ IH]; [reflexivity|].
  cbn [app read_response]. rewrite Hfit. cbn [negb].
  destruct line as [|c line]; [exact IH|].
  simpl in Hline. apply orb_false_elim in Hline as [H1 H2].
  now rewrite H1, H2.
Qed.

Lemma read_response_reply reply lines :
  fits_buffer reply = true ->
  is_reply reply = true ->
  exists response,
    read_response (reply :: lines) = Some (response, lines)
    /\ (response = None <-> first_char reply = Some "?"%char)
    /\ (forall payload, reply = String "=" payload ->
        response = Some (StripAsciiWhitespace payload)).
Proof.
  intros Hfit. cbn [read_response]. rewrite Hfit. cbn [negb].
  destruct reply as [|c payload]; [discriminate|]. simpl. intros H.
  destruct (Ascii.eqb_spec c "?") as [-> | Hq].
  - exists None. split; [reflexivity|]. split; [tauto|].
    intros ? E. discriminate E.
  - simpl in H. apply Ascii.eqb_eq in H. subst c.
    exists (Some (StripAsciiWhitespace payload)). split; [reflexivity|].
    split.
    + split; [discriminate | intros [= ?]; congruence].
    + now intros ? [= ->].
Qed.

Lemma read_response_long line lines :
  fits_buffer line = false -> read_response (line :: lines) = None.
Proof. intros H. cbn [read_response]. now rewrite H. Qed.







(** ** Paired evaluation *)

Lemma SFltb_zero_exclusive r :
  SFltb float_zero r = true -> SFltb r float_zero = false.
Proof. destruct r as [[]|[]| |[] m e]; cbv; congruence. Qed.

Lemma results_of_update_same m f ms :
  results_of m (update_results m f ms) = f (results_of m ms).
Proof. destruct m; reflexivity. Qed.

Lemma results_of_update_other m m' f ms :
  m <> m' -> results_of m' (update_results m f ms) = results_of m' ms.
Proof. destruct m, m'; intros H; try reflexivity; congruence. Qed.

Lemma total_wins_update m f ms :
  total_wins (update_results m f ms)
  = total_wins ms + (wins (f (results_of m ms)) - wins (results_of m ms)).
Proof. destruct m; unfold total_wins; simpl; lia. Qed.

Section PairGame.
Context {MctsPlayer Coord : Type}.
Variable SuggestMove : ModelPtr -> MctsPlayer -> Coord * MctsPlayer.
Variable PlayMove : Coord -> MctsPlayer -> MctsPlayer.
Variable game_over : MctsPlayer -> bool.
Variables black white : ModelPtr.

Lemma play_pair_alternating fuel (g g' : @pair_game MctsPlayer Coord) :
  alternating black white g ->
  play_pair SuggestMove PlayMove game_over fuel g = Some g' ->
  alternating black white g' /\ game_over (player g') = true.
Proof using Type.
  revert g. induction fuel as [|fuel IH]; intros g Halt; simpl.
  - destruct (game_over (player g)) eqn:Hover; [|discriminate].
    intros [= <-]. now split.
  - destruct (game_over (player g)) eqn:Hover.
    + intros [= <-]. now split.
    + destruct (SuggestMove (factory g) (player g)) as [move p].
      apply IH. destruct Halt as (Hmoves & Hf & Ho).
      unfold alternating; simpl.
      rewrite length_app, Nat.add_1_r, Nat.even_succ, <- Nat.negb_even.
      destruct (Nat.even (length (moves g))) eqn:He; simpl;
        (split; [|split; assumption]).
      * intros k m c Hk.
        destruct (decide (k < length (moves g))%nat) as [Hlt | Hge].
        -- rewrite lookup_app_l in Hk by assumption. eauto.
        -- rewrite lookup_app_r in Hk by lia.
           destruct (k - length (moves g))%nat as [|k'] eqn:Ek;
             [|now destruct k'].
           assert (k = length (moves g)) by lia. subst k.
           injection Hk as <- _. now rewrite He.
      * intros k m c Hk.
        destruct (decide (k < length (moves g))%nat) as [Hlt | Hge].
        -- rewrite lookup_app_l in Hk by assumption. eauto.
        -- rewrite lookup_app_r in Hk by lia.
           destruct (k - length (moves g))%nat as [|k'] eqn:Ek;
             [|now destruct k'].
           assert (k = length (moves g)) by lia. subst k.
           injection Hk as <- _. now rewrite He.
Qed.
End PairGame.

(** C7, as the code has it: at the end of a paired game the model given
    first to the thread has chosen the moves of black and the other model
    those of white; the thread goes on only if its two players report the
    same result; a result above zero then adds one to the black wins of the
    first model and to nothing else, a result below zero adds one to the
    white wins of the other model and to nothing else, and a result of zero
    adds nothing: the wins grow by one exactly when the result is not zero. *)
Theorem C7_win_attribution {MctsPlayer Coord : Type}
    (NewMctsPlayer : string -> MctsPlayer)
    (SuggestMove : ModelPtr -> MctsPlayer -> Coord * MctsPlayer)
    (PlayMove : Coord -> MctsPlayer -> MctsPlayer)
    (game_over : MctsPlayer -> bool)
    (result : MctsPlayer -> spec_float)
    (fuel : nat) (model other_model : ModelPtr) (ms0 ms : Models)
    (g : @pair_game MctsPlayer Coord) :
  play_pair SuggestMove PlayMove game_over fuel
            (pair_start NewMctsPlayer model other_model ms0) = Some g ->
  0 <= black_wins (results_of model ms) < Int.max_int ->
  0 <= white_wins (results_of other_model ms) < Int.max_int ->
  let r := result (player g) in
  game_over (player g) = true
  /\ (forall k m c, moves g !! k = Some (m, c) ->
                    m = if Nat.even k then model else other_model)
  /\ (SFeqb r (result (other_player g)) = false ->
      attribute_win result model other_model g ms = Fatal)
  /\ (SFeqb r (result (other_player g)) = true ->
      exists ms',
        attribute_win result model other_model g ms = Done ms'
        /\ (SFltb float_zero r = true ->
            ms' = update_results model incr_black_wins ms
            /\ black_wins (results_of model ms')
               = black_wins (results_of model ms) + 1
            /\ white_wins (results_of model ms')
               = white_wins (results_of model ms)
            /\ forall m, m <> model -> results_of m ms' = results_of m ms)
        /\ (SFltb r float_zero = true ->
            ms' = update_results other_model incr_white_wins ms
            /\ white_wins (results_of other_model ms')
               = white_wins (results_of other_model ms) + 1
            /\ black_wins (results_of other_model ms')
               = black_wins (results_of other_model ms)
            /\ forall m, m <> other_model -> results_of m ms' = results_of m ms)
        /\ (decisive r = false -> ms' = ms)
        /\ total_wins ms' = total_wins ms + (if decisive r then 1 else 0))
  /\ (forall thread_model thread_other_model swap_models,
        (model, other_model)
        = (if swap_models : bool then (thread_other_model, thread_model)
           else (thread_model, thread_other_model)) ->
        PairEvaluator_ThreadRun NewMctsPlayer SuggestMove PlayMove game_over
          result fuel thread_model thread_other_model swap_models ms0 ms
        = Some (attribute_win result model other_model g ms)).
Proof.
  intros Hplay Hb Hw r.
  destruct (play_pair_alternating SuggestMove PlayMove game_over
              model other_model fuel
              (pair_start NewMctsPlayer model other_model ms0) g)
    as [(Hmoves & _ & _) Hover]; [|exact Hplay|].
  { unfold alternating, pair_start; simpl. split; [|now split].
    intros k m c Hk. now destruct k. }
  split; [exact Hover|]. split; [exact Hmoves|].
  assert (Hthread : forall thread_model thread_other_model swap_models,
            (model, other_model)
            = (if swap_models : bool then (thread_other_model, thread_model)
               else (thread_model, thread_other_model)) ->
            PairEvaluator_ThreadRun NewMctsPlayer SuggestMove PlayMove game_over
              result fuel thread_model thread_other_model swap_models ms0 ms
            = Some (attribute_win result model other_model g ms)).
  { intros tm to sw E. unfold PairEvaluator_ThreadRun.
    rewrite <- E, Hplay. reflexivity. }
  unfold attribute_win. fold r.
  split; [now intros ->|]. split; [|exact Hthread]. clear Hthread. intros ->.
  assert (Hib : Int.add (black_wins (results_of model ms)) 1
                = black_wins (results_of model ms) + 1).
  { apply Int_wrap_id. unfold Int.in_range, Int.min_int, Int.max_int in *. lia. }
  assert (Hiw : Int.add (white_wins (results_of other_model ms)) 1
                = white_wins (results_of other_model ms) + 1).
  { apply Int_wrap_id. unfold Int.in_range, Int.min_int, Int.max_int in *. lia. }
  unfold decisive.
  destruct (SFltb float_zero r) eqn:Hpos.
  - rewrite (SFltb_zero_exclusive r Hpos). eexists. split; [reflexivity|].
    split; [|split; [discriminate | split; [discriminate|]]].
    + intros _. split; [reflexivity|].
      rewrite results_of_update_same. simpl. split; [exact Hib|].
      split; [reflexivity|]. intros m Hm.
      apply results_of_update_other. congruence.
    + rewrite total_wins_update. unfold wins. simpl. rewrite Hib. lia.
  - destruct (SFltb r float_zero) eqn:Hneg.
    + eexists. split; [reflexivity|].
      split; [discriminate | split; [|split; [discriminate|]]].
      * intros _. split; [reflexivity|].
        rewrite results_of_update_same. simpl. split; [exact Hiw|].
        split; [reflexivity|]. intros m Hm.
        apply results_of_update_other. congruence.
      * rewrite total_wins_update. unfold wins. simpl. rewrite Hiw. lia.
    + eexists. split; [reflexivity|].
      split; [discriminate | split; [discriminate | split; [reflexivity|]]].
      simpl. lia.
Qed.

Lemma C7_win_attribution_witness :
  play_pair PairToy.SuggestMove PairToy.PlayMove PairToy.game_over 5
            (pair_start PairToy.NewMctsPlayer cur_model prev_model PairToy.no_wins)
  = Some PairToy.finished
  /\ exists ms',
       attribute_win (PairToy.result float_one) cur_model prev_model
                     PairToy.finished PairToy.no_wins = Done ms'
       /\ total_wins ms' = 1
       /\ black_wins (cur_results ms') = 1.
Proof.
  split; [reflexivity|].
  destruct (C7_win_attribution PairToy.NewMctsPlayer PairToy.SuggestMove
              PairToy.PlayMove PairToy.game_over (PairToy.result float_one)
              5 cur_model prev_model PairToy.no_wins PairToy.no_wins
              PairToy.finished eq_refl)
    as (_ & _ & _ & H & _).
  - unfold Int.max_int. simpl. lia.
  - unfold Int.max_int. simpl. lia.
  - destruct (H eq_refl) as (ms' & Hrun & Hpos & _ & _ & Htotal).
    exists ms'. split; [exact Hrun|]. split; [exact Htotal|].
    destruct (Hpos eq_refl) as (_ & Hblack & _). exact Hblack.
Defined.

(** C7 as stated fails for a game that ends in a draw: the two players
    agree on the result zero, the check passes, and no win is counted. *)
Lemma C7_counterexample_draw :
  play_pair PairToy.SuggestMove PairToy.PlayMove PairToy.game_over 5
            (pair_start PairToy.NewMctsPlayer cur_model prev_model PairToy.no_wins)
  = Some PairToy.finished
  /\ SFeqb (PairToy.result float_zero (player PairToy.finished))
           (PairToy.result float_zero (other_player PairToy.finished)) = true
  /\ attribute_win (PairToy.result float_zero) cur_model prev_model
                   PairToy.finished PairToy.no_wins = Done PairToy.no_wins
  /\ total_wins PairToy.no_wins = 0
  /\ total_wins PairToy.no_wins <> 0 + 1.
Proof.
  split; [reflexivity|]. split; [reflexivity|]. split; [reflexivity|].
  split; [reflexivity|]. discriminate.
Qed.

(** ** The barrier *)

Lemma Wait_loop_blocks generation b :
  Barrier.Wait_loop generation b = Barrier.Blocked generation
  <-> generation <> Barrier.generation_ b.
Proof.
  unfold Barrier.Wait_loop.
  destruct (Z.eqb_spec generation (Barrier.generation_ b)); simpl;
    split; intros H; congruence.
Qed.

(** The loop of [Wait] compares [generation_] with the copy just made of
    it, so its body never runs: [Wait] returns at once. *)
Lemma Wait_returns b : snd (Barrier.Wait b) = Barrier.Returned.
Proof.
  unfold Barrier.Wait, Barrier.Wait_loop. simpl.
  destruct (_ =? _); simpl; [reflexivity|].
  now rewrite Z.eqb_refl.
Qed.

Lemma running_le (l : list Barrier.thread) :
  (length (List.filter (fun th => match th with
                                  | Barrier.Running => true
                                  | _ => false
                                  end) l) <= length l)%nat.
Proof.
  induction l as [|th l IH]; simpl; [lia|]. destruct th; simpl; lia.
Qed.

Lemma running_insert_Stopped (l : list Barrier.thread) i :
  l !! i = Some Barrier.Running ->
  S (length (List.filter (fun th => match th with
                                    | Barrier.Running => true
                                    | _ => false
                                    end) (<[i := Barrier.Stopped]> l)))
  = length (List.filter (fun th => match th with
                                   | Barrier.Running => true
                                   | _ => false
                                   end) l).
Proof.
  revert i. induction l as [|th l IH]; intros i H; [discriminate|].
  destruct i as [|i]; simpl in *.
  - injection H as ->. reflexivity.
  - destruct th; simpl; rewrite <- (IH i H); reflexivity.
Qed.

Lemma barrier_invariant_start num_games :
  Z.of_nat num_games <= Int.max_int -> barrier_invariant (Barrier.start num_games).
Proof.
  intros Hn. unfold barrier_invariant, Barrier.start, Barrier.running; simpl.
  rewrite length_replicate.
  assert (Hrun : List.filter (fun th => match th with
                                        | Barrier.Running => true
                                        | _ => false
                                        end) (replicate num_games Barrier.Running)
                 = replicate num_games Barrier.Running).
  { clear Hn. induction num_games as [|n IH]; simpl; [reflexivity|].
    now rewrite IH. }
  rewrite Hrun, length_replicate.
  split; [reflexivity|]. split; [lia|]. split; [lia|].
  split; [unfold SizeT.modulus, Int.max_int in *; lia|].
  apply Forall_forall. intros th Hth generation.
  apply elem_of_replicate in Hth as [-> _]. discriminate.
Qed.

Lemma barrier_invariant_step s ia :
  barrier_invariant s -> barrier_invariant (Barrier.step s ia).
Proof.
  intros Hinv. destruct ia as [i a]. unfold Barrier.step.
  destruct (Barrier.threads s !! i) as [th|] eqn:Hi; [|exact Hinv].
  pose proof Hinv as (Hcount & Hgen & Hwait & Hlen & Hnone).
  cbv zeta in *.
  destruct th as [|generation|].
  - (* a running thread *)
    assert (Hpos : 1 <= Barrier.count_ (Barrier.barrier s)).
    { rewrite Hcount. unfold Barrier.running.
      pose proof (running_insert_Stopped _ _ Hi). lia. }
    pose proof (running_le (Barrier.threads s)) as Hle.
    fold (Barrier.running s) in Hle.
    destruct a; [| exact Hinv |].
    + (* Wait *)
      pose proof (Wait_returns (Barrier.barrier s)) as Hret.
      destruct (Barrier.Wait (Barrier.barrier s)) as [b w] eqn:HW.
      simpl in Hret. subst w. simpl.
      rewrite (list_insert_id _ _ _ Hi).
      unfold Barrier.Wait in HW. simpl in HW.
      assert (Hincr : SizeT.incr (Barrier.num_waiting_ (Barrier.barrier s))
                      = Barrier.num_waiting_ (Barrier.barrier s) + 1).
      { apply SizeT_wrap_id. unfold SizeT.in_range. lia. }
      rewrite Hincr in HW.
      destruct (Z.eqb_spec (Barrier.num_waiting_ (Barrier.barrier s) + 1)
                           (Barrier.count_ (Barrier.barrier s))) as [E|E];
        injection HW as <-; unfold barrier_invariant, Barrier.running; simpl;
        fold (Barrier.running s).
      * split; [assumption|]. split.
        { unfold SizeT.incr, SizeT.wrap, SizeT.modulus.
          apply Z.mod_pos_bound. lia. }
        split; [lia|]. split; assumption.
      * split; [assumption|]. split; [assumption|]. split; [lia|].
        split; assumption.
    + (* DecrementCount *)
      assert (Hdecr : SizeT.decr (Barrier.count_ (Barrier.barrier s))
                      = Barrier.count_ (Barrier.barrier s) - 1).
      { apply SizeT_wrap_id. unfold SizeT.in_range. lia. }
      pose proof (running_insert_Stopped _ _ Hi) as Hstop.
      assert (Hnone' : Forall (fun th => forall generation,
                                   th <> Barrier.Waiting generation)
                              (<[i := Barrier.Stopped]> (Barrier.threads s))).
      { apply Forall_insert; [assumption | discriminate]. }
      unfold Barrier.DecrementCount. simpl. rewrite Hdecr.
      destruct (Z.eqb_spec (Barrier.num_waiting_ (Barrier.barrier s))
                           (Barrier.count_ (Barrier.barrier s) - 1)) as [E|E];
        unfold barrier_invariant, Barrier.running; simpl;
        rewrite length_insert.
      * split; [unfold Barrier.running in Hcount; lia|]. split.
        { unfold SizeT.incr, SizeT.wrap, SizeT.modulus.
          apply Z.mod_pos_bound. lia. }
        split; [lia|]. split; assumption.
      * split; [unfold Barrier.running in Hcount; lia|].
        split; [assumption|]. split; [lia|]. split; assumption.
  - (* no thread is inside Wait *)
    exfalso. rewrite Forall_forall in Hnone.
    eapply Hnone; [eapply list_elem_of_lookup_2; exact Hi | reflexivity].
  - destruct a; exact Hinv.
Qed.

Lemma barrier_invariant_run schedule s :
  barrier_invariant s -> barrier_invariant (Barrier.run schedule s).
Proof.
  revert s. induction schedule as [|ia schedule IH]; intros s Hinv;
    [exact Hinv|].
  apply IH, barrier_invariant_step, Hinv.
Qed.

Lemma generation_step s ia :
  0 <= Barrier.generation_ (Barrier.barrier s) ->
  let g := Barrier.generation_ (Barrier.barrier s) in
  let g' := Barrier.generation_ (Barrier.barrier (Barrier.step s ia)) in
  g' = g \/ g' = SizeT.incr g.
Proof.
  intros Hg. cbv zeta. destruct ia as [i a]. unfold Barrier.step.
  destruct (Barrier.threads s !! i) as [[|generation|]|]; try (now left);
    destruct a; try (now left).
  - unfold Barrier.Wait. simpl. destruct (_ =? _); simpl; [now right | now left].
  - unfold Barrier.DecrementCount. simpl.
    destruct (_ =? _); simpl; [now right | now left].
Qed.

Lemma generation_run schedule s :
  barrier_invariant s ->
  Barrier.generation_ (Barrier.barrier (Barrier.run schedule s))
  <= Barrier.generation_ (Barrier.barrier s) + Z.of_nat (length schedule).
Proof.
  revert s. induction schedule as [|ia schedule IH]; intros s Hinv.
  - simpl. lia.
  - change (Barrier.run (ia :: schedule) s)
      with (Barrier.run schedule (Barrier.step s ia)).
    pose proof (IH _ (barrier_invariant_step s ia Hinv)) as H.
    destruct Hinv as (_ & Hg & _).
    assert (Barrier.generation_ (Barrier.barrier (Barrier.step s ia))
            <= Barrier.generation_ (Barrier.barrier s) + 1).
    { destruct (generation_step s ia Hg) as [-> | ->]; [lia|].
      unfold SizeT.incr, SizeT.wrap, SizeT.modulus.
      apply Z.mod_le; lia. }
    simpl length. lia.
Qed.

(** C1, where the code departs from it: [Wait] never holds its caller.  The
    first of two threads to call [Wait] on a barrier for two returns with
    one call counted and the generation not advanced; calling [Wait] again,
    alone, it advances the generation; and whatever the threads of [Run] do,
    none of them is ever found inside [Wait]. *)
Theorem C1_wait_does_not_block :
  (forall b, snd (Barrier.Wait b) = Barrier.Returned)
  /\ (forall generation b,
        Barrier.Wait_loop generation b = Barrier.Blocked generation
        <-> generation <> Barrier.generation_ b)
  /\ (let s := Barrier.step (Barrier.start 2) (0%nat, Barrier.CallWait) in
      Barrier.threads s !! 0%nat = Some Barrier.Running
      /\ Barrier.threads s !! 1%nat = Some Barrier.Running
      /\ Barrier.count_ (Barrier.barrier s) = 2
      /\ Barrier.num_waiting_ (Barrier.barrier s) = 1
      /\ Barrier.generation_ (Barrier.barrier s) = 0)
  /\ (let s := Barrier.run [(0%nat, Barrier.CallWait); (0%nat, Barrier.CallWait)]
                           (Barrier.start 2) in
      Barrier.threads s = [Barrier.Running; Barrier.Running]
      /\ Barrier.num_waiting_ (Barrier.barrier s) = 0
      /\ Barrier.generation_ (Barrier.barrier s) = 1)
  /\ (forall num_games schedule i generation,
        Z.of_nat num_games <= Int.max_int ->
        Barrier.threads (Barrier.run schedule (Barrier.start num_games)) !! i
        <> Some (Barrier.Waiting generation)).
Proof.
  split; [exact Wait_returns|]. split; [exact Wait_loop_blocks|].
  split; [repeat split|]. split; [repeat split|].
  intros num_games schedule i generation Hn Hi.
  destruct (barrier_invariant_run schedule _ (barrier_invariant_start _ Hn))
    as (_ & _ & _ & _ & Hnone).
  rewrite Forall_forall in Hnone.
  eapply Hnone; [eapply list_elem_of_lookup_2; exact Hi | reflexivity].
Qed.

(** C3: whatever the threads of [Run] have done, [num_waiting_] is at most
    [count_]; a call of [Wait] releases exactly when it brings
    [num_waiting_] to [count_], a call of [DecrementCount] exactly when it
    brings [count_] down to [num_waiting_], then and there; a release sets
    [num_waiting_] to zero and adds one to [generation_], which no step
    lowers. *)
Theorem C3_barrier_invariant (num_games : nat)
    (schedule : list (nat * Barrier.action)) :
  Z.of_nat num_games <= Int.max_int ->
  let s := Barrier.run schedule (Barrier.start num_games) in
  let b := Barrier.barrier s in
  0 <= Barrier.num_waiting_ b <= Barrier.count_ b
  /\ Barrier.count_ b = Z.of_nat (length (Barrier.running s))
  /\ 0 <= Barrier.generation_ b <= Z.of_nat (length schedule)
  /\ (forall i,
        Barrier.threads s !! i = Some Barrier.Running ->
        let w := Barrier.barrier (Barrier.step s (i, Barrier.CallWait)) in
        let d := Barrier.barrier (Barrier.step s (i, Barrier.CallDecrementCount)) in
        Barrier.num_waiting_ b < Barrier.count_ b
        /\ Barrier.count_ w = Barrier.count_ b
        /\ (Barrier.num_waiting_ b + 1 = Barrier.count_ b ->
            Barrier.num_waiting_ w = 0
            /\ Barrier.generation_ w = SizeT.incr (Barrier.generation_ b))
        /\ (Barrier.num_waiting_ b + 1 <> Barrier.count_ b ->
            Barrier.num_waiting_ w = Barrier.num_waiting_ b + 1
            /\ Barrier.generation_ w = Barrier.generation_ b)
        /\ Barrier.count_ d = Barrier.count_ b - 1
        /\ (Barrier.num_waiting_ b = Barrier.count_ d ->
            Barrier.num_waiting_ d = 0
            /\ Barrier.generation_ d = SizeT.incr (Barrier.generation_ b))
        /\ (Barrier.num_waiting_ b <> Barrier.count_ d ->
            Barrier.num_waiting_ d = Barrier.num_waiting_ b
            /\ Barrier.generation_ d = Barrier.generation_ b))
  /\ (Z.of_nat (length schedule) < SizeT.modulus - 1 ->
      SizeT.incr (Barrier.generation_ b) = Barrier.generation_ b + 1
      /\ forall ia,
           Barrier.generation_ b
           <= Barrier.generation_ (Barrier.barrier (Barrier.step s ia))).
Proof.
  intros Hn s b.
  pose proof (barrier_invariant_start _ Hn) as Hstart.
  pose proof (barrier_invariant_run schedule _ Hstart) as Hinv.
  pose proof (generation_run schedule _ Hstart) as Hbound.
  fold s in Hinv, Hbound. simpl in Hbound.
  pose proof Hinv as (Hcount & Hgen & Hwait & Hlen & Hnone).
  cbv zeta in *. fold b in Hcount, Hgen, Hwait, Hbound.
  pose proof (running_le (Barrier.threads s)) as Hle.
  fold (Barrier.running s) in Hle.
  split; [lia|]. split; [assumption|]. split; [lia|]. split.
  - intros i Hi.
    assert (Hpos : 1 <= Barrier.count_ b).
    { rewrite Hcount. unfold Barrier.running.
      pose proof (running_insert_Stopped _ _ Hi). lia. }
    assert (Hincr : SizeT.incr (Barrier.num_waiting_ b)
                    = Barrier.num_waiting_ b + 1).
    { apply SizeT_wrap_id. unfold SizeT.in_range. lia. }
    assert (Hdecr : SizeT.decr (Barrier.count_ b) = Barrier.count_ b - 1).
    { apply SizeT_wrap_id. unfold SizeT.in_range. lia. }
    unfold Barrier.step. rewrite Hi. fold b.
    unfold Barrier.Wait, Barrier.DecrementCount. simpl.
    rewrite Hincr, Hdecr.
    split; [lia|].
    destruct (Z.eqb_spec (Barrier.num_waiting_ b + 1) (Barrier.count_ b));
      destruct (Z.eqb_spec (Barrier.num_waiting_ b) (Barrier.count_ b - 1));
      simpl; repeat split; intros; try reflexivity; try lia.
  - intros Hshort.
    assert (Hincr : SizeT.incr (Barrier.generation_ b)
                    = Barrier.generation_ b + 1).
    { apply SizeT_wrap_id. unfold SizeT.in_range. lia. }
    split; [exact Hincr|]. intros ia.
    destruct (generation_step s ia Hgen) as [E | E]; cbv zeta in E;
      fold b in E; rewrite E; lia.
Qed.

Lemma C3_barrier_invariant_witness :
  let s := Barrier.run [(0%nat, Barrier.CallWait)] (Barrier.start 2) in
  Barrier.num_waiting_ (Barrier.barrier s) = 1
  /\ Barrier.num_waiting_ (Barrier.barrier s) <= Barrier.count_ (Barrier.barrier s)
  /\ Barrier.generation_
       (Barrier.barrier (Barrier.step s (1%nat, Barrier.CallWait))) = 1
  /\ Barrier.generation_
       (Barrier.barrier (Barrier.step s (1%nat, Barrier.CallDecrementCount))) = 1.
Proof.
  assert (Hn : Z.of_nat 2 <= Int.max_int) by (unfold Int.max_int; lia).
  destruct (C3_barrier_invariant 2 [(0%nat, Barrier.CallWait)] Hn)
    as (Hle & _ & _ & Hstep & _).
  cbv zeta. split; [reflexivity|]. split; [apply Hle|].
  destruct (Hstep 1%nat eq_refl) as (_ & _ & Hw & _ & _ & Hd & _).
  split.
  - destruct (Hw eq_refl) as [_ ->]. reflexivity.
  - destruct (Hd eq_refl) as [_ ->]. reflexivity.
Defined.

(** * Further properties *)

(** ** Batch size *)

Lemma batch_size_nonneg_games V W B :
  1 <= V <= Int.max_int -> 0 <= W -> 1 <= B -> V * W + B <= Int.max_int ->
  batch_size V W B = Z.max (ceil_div (V * W) B) V.
Proof.
  intros HV HW HB Hmax. unfold batch_size, Int.mul, Int.add, Int.sub, Int.div.
  assert (HVW : 0 <= V * W) by nia.
  assert (R : forall z, 0 <= z <= Int.max_int -> Int.wrap z = z).
  { intros z Hz. apply Int_wrap_id. unfold Int.in_range, Int.min_int. lia. }
  rewrite (R (V * W)) by lia.
  rewrite (R (V * W + B)) by lia.
  rewrite (R (V * W + B - 1)) by lia.
  rewrite ceil_div_quot by lia.
  pose proof (ceil_div_le (V * W) B ltac:(lia) ltac:(lia)) as Hc.
  rewrite (R (ceil_div (V * W) B)) by lia.
  apply SizeT_wrap_id. unfold SizeT.in_range, SizeT.modulus.
  unfold Int.max_int in *. lia.
Qed.

(** X1: the batches the network can hold in flight take the requests of all
    the games: [buffer_count] batches of the derived size hold
    [virtual_losses * num_parallel_games] features, and the size is the
    least such that is not below [virtual_losses]. *)
Theorem X1_batch_size_capacity V W B :
  1 <= V <= Int.max_int -> 0 <= W -> 1 <= B -> V * W + B <= Int.max_int ->
  V * W <= batch_size V W B * B
  /\ V <= batch_size V W B
  /\ (forall S, V <= S -> V * W <= S * B -> batch_size V W B <= S).
Proof.
  intros HV HW HB Hmax.
  rewrite (batch_size_nonneg_games V W B) by assumption.
  pose proof (ceil_div_spec (V * W) B ltac:(lia)) as Hc.
  split; [nia|]. split; [lia|].
  intros S HS Hcap. apply Z.max_lub; [|assumption]. nia.
Qed.

Lemma X1_batch_size_capacity_witness :
  8 * 33 <= batch_size 8 33 8 * 8
  /\ 8 <= batch_size 8 33 8
  /\ (forall S, 8 <= S -> 8 * 33 <= S * 8 -> batch_size 8 33 8 <= S).
Proof.
  apply (X1_batch_size_capacity 8 33 8); unfold Int.max_int; lia.
Defined.

(** X2: the batch size does not shrink when games are added, nor grow when
    the network holds more batches in flight. *)
Theorem X2_batch_size_monotone V W W' B B' :
  1 <= V <= Int.max_int -> 0 <= W <= W' -> 1 <= B' <= B -> V * W' + B <= Int.max_int ->
  batch_size V W B <= batch_size V W' B
  /\ batch_size V W' B <= batch_size V W' B'.
Proof.
  intros HV HW HB Hmax.
  assert (V * W <= V * W') by nia.
  rewrite (batch_size_nonneg_games V W B) by lia.
  rewrite (batch_size_nonneg_games V W' B) by lia.
  rewrite (batch_size_nonneg_games V W' B') by lia.
  pose proof (ceil_div_spec (V * W) B ltac:(lia)) as H1.
  pose proof (ceil_div_spec (V * W') B ltac:(lia)) as H2.
  pose proof (ceil_div_spec (V * W') B' ltac:(lia)) as H3.
  pose proof (ceil_div_le (V * W') B' ltac:(nia) ltac:(lia)) as H4.
  split; apply Z.max_le_compat_r.
  - assert (B * (ceil_div (V * W) B - 1) < B * ceil_div (V * W') B) by lia.
    apply Z.mul_lt_mono_pos_l in H0; lia.
  - assert (B' * ceil_div (V * W') B' <= B * ceil_div (V * W') B') by nia.
    assert (B * (ceil_div (V * W') B - 1) < B * ceil_div (V * W') B') by lia.
    apply Z.mul_lt_mono_pos_l in H5; lia.
Qed.

Lemma X2_batch_size_monotone_witness :
  batch_size 8 16 8 <= batch_size 8 32 8
  /\ batch_size 8 32 8 <= batch_size 8 32 4.
Proof.
  apply (X2_batch_size_monotone 8 16 32 8 4); unfold Int.max_int; lia.
Defined.

(** X3: the batch size is [virtual_losses] itself exactly when there are no
    more games than the network holds batches; so it is for the single game
    of [Gtp], and for [Puzzle] when the directory has no move in it. *)
Theorem X3_batch_size_small (GetBufferCount : string -> Z) (model : string) V :
  let B := GetBufferCount model in
  1 <= V <= Int.max_int -> 1 <= B <= Int.max_int ->
  (forall W, 0 <= W -> V * W + B <= Int.max_int ->
             (batch_size V W B = V <-> W <= B))
  /\ (V + B <= Int.max_int ->
      factory_batch_size (Gtp_factory GetBufferCount V model) = V)
  /\ factory_batch_size (Puzzle_factory GetBufferCount V model 0) = V.
Proof.
  intros B HV HB.
  assert (Hsmall : forall W, 0 <= W -> V * W + B <= Int.max_int ->
                             (batch_size V W B = V <-> W <= B)).
  { intros W HW Hm. rewrite (batch_size_nonneg_games V W B) by lia.
    pose proof (ceil_div_spec (V * W) B ltac:(lia)) as Hc.
    split; intros H.
    - assert (ceil_div (V * W) B <= V) by lia. nia.
    - apply Z.max_r. nia. }
  split; [exact Hsmall|].
  unfold Gtp_factory, Puzzle_factory, NewDualNetFactory; simpl. fold B.
  split; [intros Hm|]; apply Hsmall; lia.
Qed.

Lemma X3_batch_size_small_witness :
  (batch_size 8 4 8 = 8 <-> 4 <= 8)
  /\ factory_batch_size (Gtp_factory (fun _ => 8) 8 "model.pb") = 8
  /\ factory_batch_size (Puzzle_factory (fun _ => 8) 8 "model.pb" 0) = 8.
Proof.
  destruct (X3_batch_size_small (fun _ => 8) "model.pb" 8) as (H1 & H2 & H3).
  - unfold Int.max_int. lia.
  - unfold Int.max_int. lia.
  - split; [apply H1; unfold Int.max_int; lia|].
    split; [apply H2; unfold Int.max_int; lia | exact H3].
Defined.

(** ** Output naming *)

Lemma digits_no_dash d : contains "-" (NilEmpty.string_of_uint d) = false.
Proof. induction d; simpl; assumption || reflexivity. Qed.

Lemma Z_to_string_no_dash z : 0 <= z -> contains "-" (Z_to_string z) = false.
Proof.
  intros Hz. unfold Z_to_string. destruct z as [|p|p]; [reflexivity| |lia].
  simpl. unfold NilZero.string_of_uint.
  destruct (Pos.to_uint p); try reflexivity; apply digits_no_dash.
Qed.

(** Printing an integer in decimal loses nothing. *)
Lemma Z_to_string_inj a b : Z_to_string a = Z_to_string b -> a = b.
Proof.
  unfold Z_to_string. intros E. apply DecimalZ.to_int_inj.
  assert (Hn : forall z, Z.to_int z <> Decimal.Pos Decimal.Nil
                         /\ Z.to_int z <> Decimal.Neg Decimal.Nil).
  { intros [|p|p]; simpl; split; try discriminate;
      intros [= H]; now apply DecimalPos.Unsigned.to_uint_nonnil in H. }
  destruct (Hn a) as [Ha1 Ha2]. destruct (Hn b) as [Hb1 Hb2].
  pose proof (NilZero.isi _ Ha1 Ha2) as Ia.
  pose proof (NilZero.isi _ Hb1 Hb2) as Ib.
  rewrite E in Ia. congruence.
Qed.

Lemma cut_at_first d (t1 t2 r1 r2 : string) :
  contains d t1 = false -> contains d t2 = false ->
  (t1 ++ String d r1)%string = (t2 ++ String d r2)%string ->
  t1 = t2 /\ r1 = r2.
Proof.
  intros H1 H2 E.
  pose proof (StrSplit_MaxSplits1_at d t1 r1 H1) as S1.
  pose proof (StrSplit_MaxSplits1_at d t2 r2 H2) as S2.
  rewrite E in S1. rewrite S1 in S2. now injection S2.
Qed.

Lemma cut_at_last d (h1 h2 a1 a2 : string) :
  contains d a1 = false -> contains d a2 = false ->
  (h1 ++ String d a1)%string = (h2 ++ String d a2)%string ->
  h1 = h2 /\ a1 = a2.
Proof.
  intros H1 H2. revert h2.
  assert (Hin : forall (h a : string),
            contains d (h ++ String d a) = true).
  { intros h a. induction h as [|c h IH]; simpl.
    - now rewrite Ascii.eqb_refl.
    - rewrite IH. apply orb_true_r. }
  induction h1 as [|c h1 IH]; intros [|c2 h2] E.
  - rewrite !append_empty_l in E. injection E as <-. now split.
  - rewrite append_empty_l, append_String in E. injection E as <- ->.
    rewrite Hin in H1. discriminate.
  - rewrite append_empty_l, append_String in E. injection E as -> <-.
    rewrite Hin in H2. discriminate.
  - rewrite !append_String in E. injection E as -> E.
    destruct (IH h2 E) as [-> ->]. now split.
Qed.

(** X4: output names do not collide: from the name of a file one reads
    back the second it was written in, the host and the worker. *)
Theorem X4_output_name_injective
    (gethostname gethostname' : option string) (now now' : Time) (i i' : Z) :
  0 <= ToUnixSeconds now -> 0 <= ToUnixSeconds now' -> 0 <= i -> 0 <= i' ->
  GetOutputName gethostname now i = GetOutputName gethostname' now' i' ->
  ToUnixSeconds now = ToUnixSeconds now'
  /\ hostname_of gethostname = hostname_of gethostname'
  /\ i = i'.
Proof.
  intros Ht Ht' Hi Hi' E. unfold GetOutputName in E.
  fold (hostname_of gethostname) in E. fold (hostname_of gethostname') in E.
  change ("-" ++ ?x)%string with (String "-" x) in E.
  apply cut_at_first in E as [Et E]; try now apply Z_to_string_no_dash.
  change (?h ++ "-" ++ ?x)%string with (h ++ String "-" x)%string in E.
  apply cut_at_last in E as [Eh Ei]; try now apply Z_to_string_no_dash.
  split; [now apply Z_to_string_inj|]. split; [assumption|].
  now apply Z_to_string_inj.
Qed.

Lemma X4_output_name_injective_witness :
  ToUnixSeconds (FromUnixSeconds 1700000000) = ToUnixSeconds {| unix_nanos := 1700000000000000001 |}
  /\ hostname_of (Some "h1"%string) = hostname_of (Some "h1"%string)
  /\ 3 = 3.
Proof.
  apply (X4_output_name_injective (Some "h1"%string) (Some "h1"%string)
           (FromUnixSeconds 1700000000)
           {| unix_nanos := 1700000000000000001 |} 3 3);
    vm_compute; congruence.
Defined.

(** X5: two games that end in the same hour are written under the same
    directory: the bucket depends on the hour only. *)
Theorem X5_output_dir_hour (JoinPath : string -> string -> string)
    (now now' : Time) (root_dir : string) :
  ToUnixSeconds now / 3600 = ToUnixSeconds now' / 3600 ->
  GetOutputDir JoinPath now root_dir = GetOutputDir JoinPath now' root_dir.
Proof.
  intros H. unfold GetOutputDir, FormatTime_YmdH_UTC.
  assert (Hd : ToUnixSeconds now / 86400 = ToUnixSeconds now' / 86400)
    by (Z.div_mod_to_equations; lia).
  assert (Hh : ToUnixSeconds now mod 86400 / 3600
               = ToUnixSeconds now' mod 86400 / 3600)
    by (Z.div_mod_to_equations; lia).
  now rewrite Hd, Hh.
Qed.

Lemma X5_output_dir_hour_witness :
  GetOutputDir (fun a b => (a ++ "/" ++ b)%string) (FromUnixSeconds 1700000000) "out"
  = GetOutputDir (fun a b => (a ++ "/" ++ b)%string) (FromUnixSeconds 1700001999) "out".
Proof.
  apply X5_output_dir_hour. reflexivity.
Defined.

(** ** The random seed of a thread *)

(** X6: a seed of zero is left to every thread as it is; a seed that is set
    is kept by thread 0, and any two of the first 1653 threads get seeds that
    differ.  The seed of a thread other than 0 can come out as zero. *)
Theorem X6_thread_random_seed (random_seed : Z) :
  0 < random_seed < SizeT.modulus ->
  (forall thread_id, thread_random_seed 0 thread_id = 0)
  /\ thread_random_seed random_seed 0 = random_seed
  /\ (forall i j, 0 <= i < j -> 1299283 * j <= Int.max_int ->
                  thread_random_seed random_seed i
                  <> thread_random_seed random_seed j)
  /\ (forall thread_id, 1 <= thread_id -> 1299283 * thread_id <= Int.max_int ->
                        thread_random_seed (SizeT.modulus - 1299283 * thread_id)
                                           thread_id = 0).
Proof.
  intros Hs.
  assert (Hmul : forall k, 0 <= k -> 1299283 * k <= Int.max_int ->
                           Int.mul 1299283 k = 1299283 * k).
  { intros k Hk Hm. apply Int_wrap_id. unfold Int.in_range, Int.min_int. lia. }
  unfold thread_random_seed.
  split; [reflexivity|]. split.
  { replace (random_seed =? 0) with false by (symmetry; apply Z.eqb_neq; lia).
    simpl. rewrite Hmul by (unfold Int.max_int; lia).
    rewrite Z.mul_0_r, Z.add_0_r.
    apply SizeT_wrap_id. unfold SizeT.in_range. lia. }
  split.
  - intros i j Hij Hj.
    replace (random_seed =? 0) with false by (symmetry; apply Z.eqb_neq; lia).
    simpl. rewrite !Hmul by lia.
    unfold SizeT.wrap, SizeT.modulus, Int.max_int in *.
    intros E. Z.div_mod_to_equations. lia.
  - intros thread_id Ht Hm.
    unfold SizeT.modulus, Int.max_int in *.
    replace (2 ^ 64 - 1299283 * thread_id =? 0) with false
      by (symmetry; apply Z.eqb_neq; lia).
    simpl. rewrite Hmul by (unfold Int.max_int; lia).
    unfold SizeT.wrap, SizeT.modulus.
    replace (2 ^ 64 - 1299283 * thread_id + 1299283 * thread_id)
      with (2 ^ 64) by lia.
    reflexivity.
Qed.

Lemma X6_thread_random_seed_witness :
  thread_random_seed 42 0 = 42
  /\ thread_random_seed 42 1 <> thread_random_seed 42 2.
Proof.
  destruct (X6_thread_random_seed 42) as (_ & H0 & Hij & _).
  - unfold SizeT.modulus. lia.
  - split; [exact H0|]. apply Hij; unfold Int.max_int; lia.
Defined.

(** ** The Bigtable specification *)

Lemma StrSplit_length d s : length (StrSplit d s) = S (count_char d s).
Proof.
  induction s as [|c s IH]; [reflexivity|]. simpl.
  destruct (Ascii.eqb c d); simpl; [now rewrite IH|].
  destruct (StrSplit d s); simpl in *; congruence.
Qed.

(** X7: the Bigtable specification is taken when it has exactly two commas,
    whatever stands between them, and its three pieces, joined by commas,
    are the specification; an empty one turns Bigtable off; any other is
    fatal. *)
Theorem X7_bigtable_check (FLAGS_output_bigtable : string) :
  (bigtable_check FLAGS_output_bigtable = Fatal
   <-> FLAGS_output_bigtable <> EmptyString
       /\ count_char "," FLAGS_output_bigtable <> 2%nat)
  /\ (count_char "," FLAGS_output_bigtable = 2%nat ->
      exists project instance table,
        bigtable_check FLAGS_output_bigtable
        = Done ([project; instance; table], true)
        /\ FLAGS_output_bigtable
           = (project ++ "," ++ instance ++ "," ++ table)%string
        /\ contains "," project = false /\ contains "," instance = false
        /\ contains "," table = false)
  /\ bigtable_check EmptyString = Done ([EmptyString], false).
Proof.
  unfold bigtable_check.
  pose proof (StrSplit_length "," FLAGS_output_bigtable) as Hlen.
  destruct (StrSplit_spec "," FLAGS_output_bigtable) as [Hjoin Hall].
  split; [|split; [|reflexivity]].
  - rewrite Hlen.
    assert (Hemp : is_empty FLAGS_output_bigtable = true
                   <-> FLAGS_output_bigtable = EmptyString)
      by (destruct FLAGS_output_bigtable; simpl; split; congruence).
    set (n := count_char "," FLAGS_output_bigtable) in *.
    destruct (is_empty FLAGS_output_bigtable) eqn:He;
      destruct (Nat.eqb_spec (S n) 3) as [E|E]; cbn [negb andb].
    + split; [discriminate | intros [H _]; exfalso; apply H, Hemp; reflexivity].
    + split; [discriminate | intros [H _]; exfalso; apply H, Hemp; reflexivity].
    + split; [discriminate | intros [_ H]; lia].
    + split; [intros _ | reflexivity].
      split; [|lia]. intros H. apply Hemp in H. discriminate.
  - intros Hc. rewrite Hc in Hlen.
    destruct (StrSplit "," FLAGS_output_bigtable)
      as [|project [|instance [|table [|]]]] eqn:E; try discriminate.
    exists project, instance, table.
    inversion_clear Hall as [|? ? Hp Hall']. inversion_clear Hall' as [|? ? Hi Hall''].
    inversion_clear Hall'' as [|? ? Ht _].
    split.
    + destruct FLAGS_output_bigtable; [discriminate|]. reflexivity.
    + split; [|now repeat split]. rewrite <- Hjoin. reflexivity.
Qed.

(** ** The bad resignation *)

Lemma bad_resign_from_spec i history resign_threshold result k :
  bad_resign_from i history resign_threshold result = Some k
  <-> exists j node,
        k = (i + j)%nat
        /\ history !! j = Some node
        /\ SFltb (node_Q_perspective node) resign_threshold = true
        /\ (forall j' node', (j' < j)%nat -> history !! j' = Some node' ->
              SFltb (node_Q_perspective node') resign_threshold = false)
        /\ SFltb (node_Q node) float_zero <> SFltb result float_zero.
Proof.
  revert i. induction history as [|node history IH]; intros i; simpl.
  - split; [discriminate | intros (j & n & _ & H & _); discriminate].
  - destruct (SFltb (node_Q_perspective node) resign_threshold) eqn:Hth.
    + split.
      * destruct (Bool.eqb _ _) eqn:Hq; simpl; [discriminate|].
        intros [= <-]. exists 0%nat, node.
        split; [lia|]. split; [reflexivity|]. split; [assumption|].
        split; [intros; lia|]. now apply Bool.eqb_false_iff.
      * intros (j & n & -> & Hj & Hn & Hfirst & Hq).
        destruct j as [|j].
        -- injection Hj as <-. apply Bool.eqb_false_iff in Hq.
           rewrite Hq. simpl. f_equal. lia.
        -- specialize (Hfirst 0%nat node ltac:(lia) eq_refl). congruence.
    + rewrite IH. split.
      * intros (j & n & -> & Hj & Hn & Hfirst & Hq).
        exists (S j), n. split; [lia|]. split; [assumption|].
        split; [assumption|]. split; [|assumption].
        intros [|j'] n' Hlt Hj'; [injection Hj' as <-; assumption|].
        apply (Hfirst j' n'); [lia | assumption].
      * intros (j & n & -> & Hj & Hn & Hfirst & Hq).
        destruct j as [|j]; [injection Hj as <-; congruence|].
        exists j, n. split; [lia|]. split; [assumption|].
        split; [assumption|]. split; [|assumption].
        intros j' n' Hlt Hj'. apply (Hfirst (S j') n'); [lia | assumption].
Qed.

(** X8: [LogEndGameInfo] reports move [k] as a bad resignation exactly when
    resignation was disabled, [k] is the first move whose [Q_perspective] is
    below the threshold, and the sign of its [Q] names another winner than
    the result; no later move is looked at. *)
Theorem X8_bad_resign (resign_enabled : bool)
    (resign_threshold result : spec_float) (history : list HistoryNode) (k : nat) :
  LogEndGameInfo_bad_resign resign_enabled resign_threshold result history = Some k
  <-> resign_enabled = false
      /\ exists node,
           history !! k = Some node
           /\ SFltb (node_Q_perspective node) resign_threshold = true
           /\ (forall j node', (j < k)%nat -> history !! j = Some node' ->
                 SFltb (node_Q_perspective node') resign_threshold = false)
           /\ SFltb (node_Q node) float_zero <> SFltb result float_zero.
Proof.
  unfold LogEndGameInfo_bad_resign. destruct resign_enabled; simpl.
  - split; [discriminate | intros [H _]; discriminate].
  - rewrite bad_resign_from_spec. split.
    + intros (j & node & -> & H). split; [reflexivity|]. now exists node.
    + intros (_ & node & H). now exists k, node.
Qed.

(** ** Reloading the flags: what a reload changes *)

Lemma assign_registered (flags : gmap string string) nv flag :
  is_Some (assign flags nv !! flag) <-> is_Some (flags !! flag).
Proof.
  unfold assign. destruct (flags !! nv.1) as [old|] eqn:E; [|reflexivity].
  destruct (decide (nv.1 = flag)) as [<- | Hne].
  - rewrite lookup_insert_eq, E. split; eauto.
  - now rewrite lookup_insert_ne.
Qed.

Lemma SetCommandLineOption_registered files name value
    (flags flags' : gmap string string) flag :
  SetCommandLineOption files name value flags = Done flags' ->
  is_Some (flags' !! flag) <-> is_Some (flags !! flag).
Proof.
  unfold SetCommandLineOption.
  destruct (gflags files name value flags) as [assigned|]; [|discriminate].
  intros [= <-]. revert flags.
  induction assigned as [|nv assigned IH]; intros flags; [reflexivity|].
  cbn [List.fold_left]. now rewrite IH, assign_registered.
Qed.

Lemma apply_overrides_registered files overrides
    (flags flags' : gmap string string) flag :
  apply_overrides files overrides flags = Done flags' ->
  is_Some (flags' !! flag) <-> is_Some (flags !! flag).
Proof.
  revert flags. induction overrides as [|[n v] overrides IH]; intros flags.
  - now intros [= <-].
  - cbn [apply_overrides fst snd].
    destruct (SetCommandLineOption files n v flags) as [flags1|] eqn:E;
      [|discriminate].
    intros H. rewrite (IH _ H).
    exact (SetCommandLineOption_registered _ _ _ _ _ flag E).
Qed.

(** What a reload that goes through leaves behind: the flags with the calls
    it made applied, and the time of the file unless it made none. *)
Lemma MaybeReloadFlags_done files self self' calls :
  MaybeReloadFlags files self = Done (self', calls) ->
  apply_overrides files calls (FLAGS self) = Done (FLAGS self')
  /\ (self' = self /\ calls = []
      \/ GetModTime files (FLAGS_flags_path self) = Some (flags_timestamp_ self')).
Proof.
  unfold MaybeReloadFlags.
  destruct (is_empty (FLAGS_flags_path self)).
  { intros [= <- <-]. split; [reflexivity | now left]. }
  destruct (GetModTime files (FLAGS_flags_path self)) as [ts|]; [|discriminate].
  destruct (ts =? flags_timestamp_ self).
  { intros [= <- <-]. split; [reflexivity | now left]. }
  destruct (ReadFile files (FLAGS_flags_path self)) as [contents|];
    [|discriminate].
  cbv zeta. rewrite reload_lines_spec. cbv zeta.
  destruct (forallb line_check _); [|discriminate].
  destruct (apply_overrides files _ (FLAGS self)) as [flags|] eqn:E;
    [|discriminate].
  intros [= <- <-]. simpl. split; [exact E | now right].
Qed.

(** X11: a reload that went through is not repeated: as long as the file
    keeps its time and the reload did not move [flags_path], the next reload
    makes no call and changes nothing. *)
Theorem X11_reload_once (files : Files) (self self' : SelfPlayer)
    (calls : list (string * string)) :
  MaybeReloadFlags files self = Done (self', calls) ->
  FLAGS_flags_path self' = FLAGS_flags_path self ->
  MaybeReloadFlags files self' = Done (self', []).
Proof.
  intros H Hpath. pose proof H as Hdone.
  apply MaybeReloadFlags_done in Hdone as [_ [[-> ->] | Hts]].
  - exact H.
  - unfold MaybeReloadFlags. rewrite Hpath, Hts, Z.eqb_refl.
    destruct (is_empty (FLAGS_flags_path self)); reflexivity.
Qed.

Lemma X11_reload_once_witness :
  exists self',
    MaybeReloadFlags komi_files example_self
    = Done (self', [("komi"%string, "7.5"%string)])
    /\ MaybeReloadFlags komi_files self' = Done (self', []).
Proof.
  eexists. split; [vm_compute; reflexivity|].
  eapply (X11_reload_once komi_files example_self _
            [("komi"%string, "7.5"%string)]).
  - vm_compute. reflexivity.
  - vm_compute. reflexivity.
Defined.

(** ** Reloading the flags: lines at the edge *)

Lemma StrSplit_MaxSplits1_absent d s :
  contains d s = false -> StrSplit_MaxSplits1 d s = (s, EmptyString).
Proof.
  induction s as [|c s IH]; [reflexivity|]. simpl. intros H.
  apply orb_false_elim in H as [Hc Hs]. now rewrite Hc, (IH Hs).
Qed.

(** X12: a line of at most two characters is fatal once comment and
    whitespace are gone, and so are two dashes on their own; a line
    [--name] with no [=] passes the check and makes the call for [name] with
    the empty string for the value; the calls of a reload are those of its
    lines, in order. *)
Theorem X12_reload_edge_lines (files : Files) (self : SelfPlayer) (ts : Z)
    (contents : string) :
  is_empty (FLAGS_flags_path self) = false ->
  GetModTime files (FLAGS_flags_path self) = Some ts ->
  ts <> flags_timestamp_ self ->
  ReadFile files (FLAGS_flags_path self) = Some contents ->
  ((exists line, In line (override_lines contents)
                 /\ (String.length line <= 2)%nat) ->
   MaybeReloadFlags files self = Fatal)
  /\ begins_with_dashes "--" = true
  /\ (forall flag, contains "=" flag = false -> flag <> EmptyString ->
        line_check ("--" ++ flag) = true
        /\ call_of ("--" ++ flag) = (c_str flag, EmptyString))
  /\ (forall self' calls,
        MaybeReloadFlags files self = Done (self', calls) ->
        calls = List.map call_of (override_lines contents)).
Proof.
  intros Hpath Hmod Hts Hread.
  pose proof (MaybeReloadFlags_read files self ts contents Hpath Hmod Hts Hread)
    as Hrun.
  split.
  - intros (line & Hin & Hlen). rewrite Hrun.
    destruct (forallb line_check (override_lines contents)) eqn:Hall;
      [|reflexivity].
    rewrite forallb_forall in Hall. apply Hall in Hin.
    unfold line_check in Hin. apply andb_prop in Hin as [Hin _].
    apply Nat.ltb_lt in Hin. lia.
  - split; [reflexivity|]. split.
    + intros flag Hno Hne.
      change ("--" ++ flag)%string with (String "-" (String "-" flag)).
      split.
      * unfold line_check. destruct flag; [congruence | reflexivity].
      * rewrite call_of_eq. simpl.
        now rewrite (StrSplit_MaxSplits1_absent "=" flag Hno).
    + intros self' calls. rewrite Hrun.
      destruct (forallb line_check (override_lines contents)); [|discriminate].
      destruct (apply_overrides files _ (FLAGS self)); [|discriminate].
      now intros [= _ <-].
Qed.

Lemma X12_reload_edge_lines_witness :
  MaybeReloadFlags (file_at_5 "-- # nothing") example_self = Fatal
  /\ exists self',
       MaybeReloadFlags (file_at_5 "--komi") example_self
       = Done (self', [("komi"%string, EmptyString)]).
Proof.
  split.
  - destruct (X12_reload_edge_lines (file_at_5 "-- # nothing") example_self 5
                "-- # nothing" eq_refl eq_refl ltac:(discriminate) eq_refl)
      as (H & _).
    apply H. exists "--"%string. split; [now left | simpl; lia].
  - eexists. vm_compute. reflexivity.
Defined.

(** ** The GTP client: requests and replies *)

Lemma read_response_none lines :
  read_response lines = None
  <-> Forall (fun line => fits_buffer line = true /\ is_reply line = false) lines
      \/ exists skipped long rest,
           lines = skipped ++ long :: rest
           /\ Forall (fun line => fits_buffer line = true /\ is_reply line = false)
                     skipped
           /\ fits_buffer long = false.
Proof.
  induction lines as [|line lines IH].
  - split; [now left | reflexivity].
  - destruct (fits_buffer line) eqn:Hfit.
    + destruct (is_reply line) eqn:Hrep.
      * destruct (read_response_reply line lines Hfit Hrep) as (r & -> & _).
        split; [discriminate|].
        intros [H | (skipped & long & rest & E & Hs & Hl)].
        -- inversion H as [|? ? [_ H1] _]. congruence.
        -- destruct skipped as [|l skipped]; injection E as <- _.
           ++ congruence.
           ++ inversion Hs as [|? ? [_ H1] _]. congruence.
      * rewrite (read_response_skip [line] lines ltac:(now repeat constructor)
               : read_response (line :: lines) = read_response lines).
        rewrite IH. split.
        -- intros [H | (skipped & long & rest & -> & Hs & Hl)].
           ++ left. now constructor.
           ++ right. exists (line :: skipped), long, rest.
              split; [reflexivity|]. split; [now constructor | assumption].
        -- intros [H | (skipped & long & rest & E & Hs & Hl)].
           ++ left. now inversion H.
           ++ destruct skipped as [|l skipped]; injection E as <- E.
              ** congruence.
              ** right. exists skipped, long, rest.
                 split; [assumption|]. split; [now inversion Hs | assumption].
    + rewrite (read_response_long line lines Hfit).
      split; [intros _ | reflexivity].
      right. exists [], line, lines. split; [reflexivity|]. now split.
Qed.

Lemma read_response_some lines response rest :
  read_response lines = Some (response, rest) ->
  exists skipped reply,
    lines = skipped ++ reply :: rest
    /\ Forall (fun line => fits_buffer line = true /\ is_reply line = false)
              skipped
    /\ fits_buffer reply = true
    /\ is_reply reply = true.
Proof.
  induction lines as [|line lines IH]; [discriminate|].
  destruct (fits_buffer line) eqn:Hfit.
  - destruct (is_reply line) eqn:Hrep.
    + destruct (read_response_reply line lines Hfit Hrep) as (r & -> & _).
      intros [= <- <-]. exists [], line.
      split; [reflexivity|]. split; [constructor|]. now split.
    + rewrite (read_response_skip [line] lines ltac:(now repeat constructor)
               : read_response (line :: lines) = read_response lines).
      intros H. destruct (IH H) as (skipped & reply & -> & Hs & Hr).
      exists (line :: skipped), reply. split; [reflexivity|].
      split; [now constructor | assumption].
  - now rewrite (read_response_long line lines Hfit).
Qed.

(** X13: [Send] is fatal exactly when its command line cannot be written.
    Otherwise it returns exactly when, of the lines that the engine writes,
    one begins with [?] or [=] and no line up to the first of these is too
    long for the buffer; it has then written its one command line, read up
    to and including that line and no further, and left the colour alone. *)
Theorem X13_send_consumes (msg : string) (c : GtpClient) :
  let command := (c_str msg ++ String line_feed "")%string in
  let skipped_line :=
    fun line => fits_buffer line = true /\ is_reply line = false in
  (Send msg c = Some Fatal
   <-> output_ok_ c (output_ c ++ [command]) = false)
  /\ (Send msg c = None
      <-> output_ok_ c (output_ c ++ [command]) = true
          /\ (Forall skipped_line (input_ c)
              \/ exists skipped long rest,
                   input_ c = skipped ++ long :: rest
                   /\ Forall skipped_line skipped
                   /\ fits_buffer long = false))
  /\ (forall response c',
        Send msg c = Some (Done (response, c')) ->
        color_ c' = color_ c
        /\ output_ c' = output_ c ++ [command]
        /\ output_ok_ c' = output_ok_ c
        /\ exists skipped reply,
             input_ c = skipped ++ reply :: input_ c'
             /\ Forall skipped_line skipped
             /\ fits_buffer reply = true
             /\ is_reply reply = true).
Proof.
  cbv zeta. unfold Send. cbv zeta.
  destruct (output_ok_ c _) eqn:Hout; cbn [negb].
  - split; [split; [|discriminate]|].
    { destruct (read_response (input_ c)) as [[r rest]|]; discriminate. }
    split.
    + rewrite <- read_response_none.
      destruct (read_response (input_ c)) as [[r rest]|].
      * split; [discriminate | intros [_ H]; discriminate].
      * split; [now split | reflexivity].
    + intros response c'.
      destruct (read_response (input_ c)) as [[r rest]|] eqn:E; [|discriminate].
      intros [= <- <-]. simpl. split; [reflexivity|]. split; [reflexivity|].
      split; [reflexivity|]. eapply read_response_some. exact E.
  - split; [now split|].
    split; [split; [discriminate | intros [H _]; discriminate]|].
    intros response c'. discriminate.
Qed.

(** X14: when its command can be written, [GenMove] returns the invalid move
    and keeps the colour if the engine answers with a failure or with text
    that is no move; if the answer is a move the colour changes sides. *)
Theorem X14_genmove {Coord : Type}
    (FromKgs : string -> Coord) (kInvalid : Coord)
    (Coord_eqb : Coord -> Coord -> bool) (Color_to_string : Color -> string)
    (c : GtpClient) :
  let command :=
    (c_str ("genmove " ++ Color_to_string (color_ c)) ++ String line_feed "")
    %string in
  (forall a b, Coord_eqb a b = true <-> a = b) ->
  output_ok_ c (output_ c ++ [command]) = true ->
  (forall rest,
     read_response (input_ c) = Some (None, rest) ->
     exists c',
       GenMove FromKgs kInvalid Coord_eqb Color_to_string c
       = Some (Done (kInvalid, c'))
       /\ color_ c' = color_ c /\ input_ c' = rest)
  /\ (forall text rest,
        read_response (input_ c) = Some (Some text, rest) ->
        exists c',
          GenMove FromKgs kInvalid Coord_eqb Color_to_string c
          = Some (Done (FromKgs text, c'))
          /\ input_ c' = rest
          /\ (FromKgs text = kInvalid -> color_ c' = color_ c)
          /\ (FromKgs text <> kInvalid -> color_ c' = OtherColor (color_ c)))
  /\ (forall move c',
        GenMove FromKgs kInvalid Coord_eqb Color_to_string c
        = Some (Done (move, c')) ->
        output_ c' = output_ c ++ [command]).
Proof.
  cbv zeta. intros Heqb Hout. unfold GenMove, Send. cbv zeta.
  rewrite Hout. cbn [negb].
  split; [|split].
  - intros rest ->. simpl.
    assert (E : Coord_eqb kInvalid kInvalid = true) by now apply Heqb.
    rewrite E. eexists. repeat split.
  - intros text rest ->. simpl.
    destruct (Coord_eqb (FromKgs text) kInvalid) eqn:E.
    + apply Heqb in E. eexists. split; [reflexivity|]. split; [reflexivity|].
      split; [reflexivity | congruence].
    + assert (FromKgs text <> kInvalid).
      { intros H. apply Heqb in H. congruence. }
      eexists. split; [reflexivity|]. split; [reflexivity|].
      split; [congruence | reflexivity].
  - intros move c'.
    destruct (read_response (input_ c)) as [[r rest]|]; [|discriminate].
    simpl. intros [= _ <-].
    destruct (Coord_eqb _ kInvalid); reflexivity.
Qed.

Lemma X14_genmove_witness :
  exists c',
    GenMove Toy.FromKgs Toy.kInvalid Toy.Coord_eqb Toy.Color_to_string
            {| color_ := kBlack; input_ := ["= Q16"%string]; output_ := [];
               output_ok_ := fun _ => true |}
    = Some (Done ("Q16"%string, c'))
    /\ color_ c' = kWhite.
Proof.
  destruct (X14_genmove Toy.FromKgs Toy.kInvalid Toy.Coord_eqb
              Toy.Color_to_string
              {| color_ := kBlack; input_ := ["= Q16"%string]; output_ := [];
                 output_ok_ := fun _ => true |})
    as (_ & Hmove & _).
  - intros a b. apply String.eqb_eq.
  - reflexivity.
  - destruct (Hmove "Q16"%string [] eq_refl) as (c' & Hgen & _ & _ & Hflip).
    exists c'. split; [exact Hgen|]. apply Hflip. discriminate.
Defined.

(** X15: a client comes out of its constructor only if both commands could
    be written and the engine has taken the board size and then the komi;
    it has then sent these two commands and no other, and plays black
    first.  The constructor is fatal exactly when a command cannot be
    written or the engine refuses one.  [Name] gives ["<unknown>"] when the
    engine refuses to name itself. *)
Theorem X15_gtp_handshake (kN : Z) (komi_text : string) (engine : list string)
    (output_ok : list string -> bool) :
  let boardsize :=
    (c_str ("boardsize " ++ Z_to_string kN) ++ String line_feed "")%string in
  let komi := (c_str ("komi " ++ komi_text) ++ String line_feed "")%string in
  let name := (c_str "name" ++ String line_feed "")%string in
  (forall c,
     GtpClient_new kN komi_text engine output_ok = Some (Done c) ->
     color_ c = kBlack
     /\ output_ c = [boardsize; komi]
     /\ output_ok [boardsize] = true /\ output_ok [boardsize; komi] = true
     /\ exists ack rest ack',
          read_response engine = Some (Some ack, rest)
          /\ read_response rest = Some (Some ack', input_ c))
  /\ (GtpClient_new kN komi_text engine output_ok = Some Fatal
      <-> output_ok [boardsize] = false
          \/ output_ok [boardsize] = true
             /\ ((exists rest, read_response engine = Some (None, rest))
                 \/ exists ack rest,
                      read_response engine = Some (Some ack, rest)
                      /\ (output_ok [boardsize; komi] = false
                          \/ output_ok [boardsize; komi] = true
                             /\ exists rest',
                                  read_response rest = Some (None, rest'))))
  /\ (forall c rest,
        output_ok_ c (output_ c ++ [name]) = true ->
        read_response (input_ c) = Some (None, rest) ->
        exists c', Name c = Some (Done ("<unknown>"%string, c'))
                   /\ color_ c' = color_ c /\ input_ c' = rest)
  /\ (forall c text rest,
        output_ok_ c (output_ c ++ [name]) = true ->
        read_response (input_ c) = Some (Some text, rest) ->
        exists c', Name c = Some (Done (text, c'))
                   /\ color_ c' = color_ c /\ input_ c' = rest).
Proof.
  cbv zeta. unfold GtpClient_new, Name, Send. cbv zeta.
  cbn [color_ input_ output_ output_ok_ app].
  split; [|split; [|split]].
  - intros c.
    destruct (output_ok [_]) eqn:O1; cbn [negb]; [|discriminate].
    destruct (read_response engine) as [[[ack|] rest]|] eqn:E1;
      try discriminate.
    cbn [color_ input_ output_ output_ok_ app].
    destruct (output_ok [_; _]) eqn:O2; cbn [negb]; [|discriminate].
    destruct (read_response rest) as [[[ack'|] rest']|] eqn:E2;
      try discriminate.
    intros [= <-]. simpl. split; [reflexivity|]. split; [reflexivity|].
    split; [reflexivity|]. split; [reflexivity|].
    exists ack, rest, ack'. now split.
  - destruct (output_ok [_]) eqn:O1; cbn [negb].
    2:{ split; [intros _; now left | reflexivity]. }
    destruct (read_response engine) as [[[ack|] rest]|] eqn:E1.
    + cbn [color_ input_ output_ output_ok_ app].
      destruct (output_ok [_; _]) eqn:O2; cbn [negb].
      2:{ split; [intros _ | reflexivity]. right. split; [reflexivity|].
          right. exists ack, rest. split; [reflexivity | now left]. }
      destruct (read_response rest) as [[[ack'|] rest']|] eqn:E2.
      * split; [discriminate|].
        intros [H | [_ [(r & H) | (a & r & H1 & [H2 | [_ (r' & H2)]])]]];
          try discriminate.
        injection H1 as <- <-. congruence.
      * split; [intros _ | reflexivity]. right. split; [reflexivity|].
        right. exists ack, rest. split; [reflexivity|]. right.
        split; [reflexivity|]. now exists rest'.
      * split; [discriminate|].
        intros [H | [_ [(r & H) | (a & r & H1 & [H2 | [_ (r' & H2)]])]]];
          try discriminate.
        injection H1 as <- <-. congruence.
    + split; [intros _ | reflexivity]. right. split; [reflexivity|].
      left. now exists rest.
    + split; [discriminate|].
      intros [H | [_ [(r & H) | (a & r & H1 & _)]]]; discriminate.
  - intros c rest -> ->. eexists. repeat split.
  - intros c text rest -> ->. eexists. repeat split.
Qed.

(** X16: a move the engine takes and a move it then makes bring the colour
    back to where it was; the two commands name the two colours in turn. *)
Theorem X16_round_keeps_colour {Coord : Type}
    (ToKgs : Coord -> string) (FromKgs : string -> Coord) (kInvalid : Coord)
    (Coord_eqb : Coord -> Coord -> bool) (Color_to_string : Color -> string)
    (c : GtpClient) (move : Coord) (ack text : string) (rest rest' : list string) :
  let play :=
    (c_str ("play " ++ Color_to_string (color_ c) ++ " " ++ ToKgs move)
       ++ String line_feed "")%string in
  let genmove :=
    (c_str ("genmove " ++ Color_to_string (OtherColor (color_ c)))
       ++ String line_feed "")%string in
  (forall a b, Coord_eqb a b = true <-> a = b) ->
  output_ok_ c (output_ c ++ [play]) = true ->
  output_ok_ c ((output_ c ++ [play]) ++ [genmove]) = true ->
  read_response (input_ c) = Some (Some ack, rest) ->
  read_response rest = Some (Some text, rest') ->
  FromKgs text <> kInvalid ->
  exists c1 c2,
    Play ToKgs Color_to_string move c = Some (Done (true, c1))
    /\ GenMove FromKgs kInvalid Coord_eqb Color_to_string c1
       = Some (Done (FromKgs text, c2))
    /\ color_ c1 = OtherColor (color_ c)
    /\ color_ c2 = color_ c
    /\ input_ c2 = rest'
    /\ output_ c2 = output_ c ++ [play; genmove].
Proof.
  cbv zeta. intros Heqb Hout1 Hout2 Hack Hmove Hvalid.
  assert (E : Coord_eqb (FromKgs text) kInvalid = false).
  { destruct (Coord_eqb (FromKgs text) kInvalid) eqn:E; [|reflexivity].
    apply Heqb in E. congruence. }
  eexists. eexists. split.
  { unfold Play, Send. cbv zeta. rewrite Hout1, Hack. reflexivity. }
  split.
  { unfold GenMove, Send. cbv zeta.
    cbn [set_color color_ input_ output_ output_ok_].
    rewrite Hout2, Hmove. cbn [negb]. cbv iota beta. rewrite E. reflexivity. }
  cbn [set_color color_ input_ output_ output_ok_].
  split; [reflexivity|]. split; [now destruct (color_ c)|].
  split; [reflexivity|]. now rewrite <- app_assoc.
Qed.

Lemma X16_round_keeps_colour_witness :
  exists c1 c2,
    Play Toy.ToKgs Toy.Color_to_string "D4"%string Toy.answering_client
    = Some (Done (true, c1))
    /\ GenMove Toy.FromKgs Toy.kInvalid Toy.Coord_eqb Toy.Color_to_string c1
       = Some (Done ("Q16"%string, c2))
    /\ color_ c2 = kBlack.
Proof.
  destruct (X16_round_keeps_colour Toy.ToKgs Toy.FromKgs Toy.kInvalid
              Toy.Coord_eqb Toy.Color_to_string Toy.answering_client
              "D4"%string ""%string "Q16"%string
              [String line_feed ""; ("= Q16" ++ String line_feed "")%string;
               String line_feed ""]
              [String line_feed ""])
    as (c1 & c2 & Hplay & Hgen & _ & Hcolor & _).
  - intros a b. apply String.eqb_eq.
  - reflexivity.
  - reflexivity.
  - reflexivity.
  - reflexivity.
  - discriminate.
  - exists c1, c2. split; [exact Hplay|]. split; [exact Hgen | exact Hcolor].
Defined.

(** ** The game against the engine *)

Lemma prefix_empty s : String.prefix EmptyString s = true.
Proof. now destruct s. Qed.

Lemma is_play_command x y : is_play (c_str ("play " ++ x) ++ y) = true.
Proof. unfold is_play. simpl. apply prefix_empty. Qed.

Lemma is_genmove_command x y : is_genmove (c_str ("genmove " ++ x) ++ y) = true.
Proof. unfold is_genmove. simpl. apply prefix_empty. Qed.

Section GtpLoop.
Context {Coord MctsPlayer : Type}.
Variable ToKgs : Coord -> string.
Variable FromKgs : string -> Coord.
Variable kInvalid kResign : Coord.
Variable Coord_eqb : Coord -> Coord -> bool.
Variable Color_to_string : Color -> string.
Variable SuggestMove : MctsPlayer -> Coord * MctsPlayer.
Variable PlayMove : Coord -> MctsPlayer -> MctsPlayer.
Variable game_over : MctsPlayer -> bool.

Lemma Play_output move c ok c1 :
  Play ToKgs Color_to_string move c = Some (Done (ok, c1)) ->
  exists command, is_play command = true /\ output_ c1 = output_ c ++ [command].
Proof using Type.
  unfold Play, Send. cbv zeta.
  destruct (negb (output_ok_ c _)); [discriminate|].
  destruct (read_response (input_ c)) as [[r rest]|]; [|discriminate].
  intros [= _ <-]. eexists. split; [|destruct r; reflexivity].
  apply is_play_command.
Qed.

Lemma GenMove_output c move c1 :
  GenMove FromKgs kInvalid Coord_eqb Color_to_string c = Some (Done (move, c1)) ->
  exists command,
    is_genmove command = true /\ output_ c1 = output_ c ++ [command].
Proof using Type.
  unfold GenMove, Send. cbv zeta.
  destruct (negb (output_ok_ c _)); [discriminate|].
  destruct (read_response (input_ c)) as [[r rest]|]; [|discriminate].
  simpl. intros [= _ <-]. eexists.
  split; [|destruct (Coord_eqb _ kInvalid); reflexivity].
  apply is_genmove_command.
Qed.

Lemma play_gtp_commands fuel mcts_player gtp_client mcts_player' gtp_client' :
  play_gtp ToKgs FromKgs kInvalid kResign Coord_eqb Color_to_string
           SuggestMove PlayMove game_over fuel mcts_player gtp_client
  = Some (mcts_player', gtp_client') ->
  game_over mcts_player' = true
  /\ exists commands,
       output_ gtp_client' = output_ gtp_client ++ commands
       /\ take_turns true commands = true.
Proof using Type.
  revert mcts_player gtp_client.
  induction fuel as [|fuel IH]; intros p c; simpl.
  - destruct (game_over p) eqn:Hover; [|discriminate].
    intros [= <- <-]. split; [assumption|]. exists []. now rewrite app_nil_r.
  - destruct (game_over p) eqn:Hover.
    { intros [= <- <-]. split; [assumption|]. exists [].
      now rewrite app_nil_r. }
    destruct (SuggestMove p) as [move p1].
    destruct (Play ToKgs Color_to_string move c) as [[[ok c1]|]|] eqn:Hplay;
      try discriminate.
    destruct (Play_output _ _ _ _ Hplay) as (play & Hp & Hout1).
    destruct (game_over (PlayMove (if ok then move else kResign) p1)) eqn:Hover2.
    { intros [= <- <-]. split; [assumption|]. exists [play].
      split; [assumption|]. simpl. now rewrite Hp. }
    destruct (GenMove FromKgs kInvalid Coord_eqb Color_to_string c1)
      as [[[reply c2]|]|] eqn:Hgen; try discriminate.
    destruct (GenMove_output _ _ _ Hgen) as (genmove & Hg & Hout2).
    intros H. destruct (IH _ _ H) as (Hend & commands & Hout & Hturns).
    split; [assumption|]. exists (play :: genmove :: commands).
    split.
    + rewrite Hout, Hout2, Hout1, <- !app_assoc. reflexivity.
    + simpl. now rewrite Hp, Hg, Hturns.
Qed.
End GtpLoop.

(** X17: when the loop of [GtpEvaluator::ThreadRun] ends, the game of the
    player is over, and the commands sent to the engine meanwhile are [play]
    and [genmove] in turn, [play] first. *)
Theorem X17_gtp_loop_commands {Coord MctsPlayer : Type}
    (ToKgs : Coord -> string) (FromKgs : string -> Coord)
    (kInvalid kResign : Coord) (Coord_eqb : Coord -> Coord -> bool)
    (Color_to_string : Color -> string)
    (SuggestMove : MctsPlayer -> Coord * MctsPlayer)
    (PlayMove : Coord -> MctsPlayer -> MctsPlayer)
    (game_over : MctsPlayer -> bool)
    (fuel : nat) (mcts_player mcts_player' : MctsPlayer)
    (gtp_client gtp_client' : GtpClient) :
  play_gtp ToKgs FromKgs kInvalid kResign Coord_eqb Color_to_string
           SuggestMove PlayMove game_over fuel mcts_player gtp_client
  = Some (mcts_player', gtp_client') ->
  game_over mcts_player' = true
  /\ exists commands,
       output_ gtp_client' = output_ gtp_client ++ commands
       /\ take_turns true commands = true.
Proof. apply play_gtp_commands. Qed.

Lemma X17_gtp_loop_commands_witness :
  Toy.game_over ["resign"%string] = true
  /\ exists commands,
       output_ (set_color kBlack
                  {| color_ := kBlack; input_ := [];
                     output_ := [("play B D4" ++ String line_feed "")%string];
                     output_ok_ := fun _ => true |})
       = output_ Toy.refusing_client ++ commands
       /\ take_turns true commands = true.
Proof.
  apply (X17_gtp_loop_commands Toy.ToKgs Toy.FromKgs Toy.kInvalid Toy.kResign
           Toy.Coord_eqb Toy.Color_to_string Toy.SuggestMove Toy.PlayMove
           Toy.game_over 1 [] ["resign"%string] Toy.refusing_client).
  reflexivity.
Defined.

(** ** The threads of the evaluators *)

Lemma land_one_odd (i : nat) :
  negb (Z.land (Z.of_nat i) 1 =? 0) = Nat.odd i.
Proof.
  change 1 with (Z.ones 1). rewrite Z.land_ones by lia.
  change (2 ^ 1) with 2.
  destruct (Nat.odd i) eqn:Ho.
  - apply Nat.odd_spec in Ho as [k ->].
    replace (Z.of_nat (2 * k + 1)) with (1 + Z.of_nat k * 2) by lia.
    rewrite Z.mod_add by lia. reflexivity.
  - assert (He : Nat.even i = true) by (rewrite <- Nat.negb_odd, Ho; reflexivity).
    apply Nat.even_spec in He as [k ->].
    replace (Z.of_nat (2 * k)) with (0 + Z.of_nat k * 2) by lia.
    rewrite Z.mod_add by lia. reflexivity.
Qed.

Lemma PairEvaluator_Run_threads_S n :
  PairEvaluator_Run_threads (S n)
  = PairEvaluator_Run_threads n
      ++ [{| pair_thread_id := Z.of_nat n;
             pair_model := cur_model;
             pair_other_model := prev_model;
             pair_swap_models := Nat.odd n |}].
Proof.
  unfold PairEvaluator_Run_threads.
  rewrite seq_S, map_app. simpl. now rewrite land_one_odd.
Qed.

Lemma div2_step n :
  (Nat.div2 (S (S n)) = Nat.div2 (S n) + (if Nat.odd n then 0 else 1))%nat
  /\ (Nat.div2 (S n) = Nat.div2 n + (if Nat.odd n then 1 else 0))%nat.
Proof.
  destruct (Nat.odd n) eqn:Ho.
  - apply Nat.odd_spec in Ho as [k ->].
    replace (S (S (2 * k + 1))) with (S (2 * (S k))) by lia.
    replace (S (2 * k + 1)) with (2 * (S k))%nat by lia.
    replace (2 * k + 1)%nat with (S (2 * k)) by lia.
    rewrite !Nat.div2_succ_double, Nat.div2_double. lia.
  - assert (He : Nat.even n = true) by (rewrite <- Nat.negb_odd, Ho; reflexivity).
    apply Nat.even_spec in He as [k ->].
    replace (S (S (2 * k))) with (2 * (S k))%nat by lia.
    rewrite Nat.div2_succ_double, !Nat.div2_double. lia.
Qed.

Lemma black_count n :
  (length (List.filter (fun t => match black_model t with
                                 | cur_model => true
                                 | prev_model => false
                                 end) (PairEvaluator_Run_threads n))
   = Nat.div2 (S n))%nat
  /\ (length (List.filter (fun t => match black_model t with
                                    | cur_model => false
                                    | prev_model => true
                                    end) (PairEvaluator_Run_threads n))
      = Nat.div2 n)%nat.
Proof.
  induction n as [|n [IH1 IH2]]; [split; reflexivity|].
  rewrite PairEvaluator_Run_threads_S, !List.filter_app, !length_app, IH1, IH2.
  destruct (div2_step n) as [H1 H2]. rewrite H1, H2.
  unfold black_model. simpl. destruct (Nat.odd n); simpl; split; reflexivity.
Qed.

(** X18: [Run] swaps the models of the threads with an odd number: the
    model given second plays black in their games and the model given first
    in the others, so that of [num_games] games the one plays black in half
    of them, rounded up, and the other in half, rounded down. *)
Theorem X18_pair_threads_colours (num_games : nat) :
  length (PairEvaluator_Run_threads num_games) = num_games
  /\ (forall i t,
        PairEvaluator_Run_threads num_games !! i = Some t ->
        pair_thread_id t = Z.of_nat i
        /\ pair_swap_models t = Nat.odd i
        /\ black_model t = if Nat.even i then cur_model else prev_model)
  /\ (length (List.filter (fun t => match black_model t with
                                    | cur_model => true
                                    | prev_model => false
                                    end) (PairEvaluator_Run_threads num_games))
      = Nat.div2 (S num_games))%nat
  /\ (length (List.filter (fun t => match black_model t with
                                    | cur_model => false
                                    | prev_model => true
                                    end) (PairEvaluator_Run_threads num_games))
      = Nat.div2 num_games)%nat.
Proof.
  split; [unfold PairEvaluator_Run_threads; now rewrite length_map, length_seq|].
  split; [|apply black_count].
  intros i t Hi. unfold PairEvaluator_Run_threads in Hi.
  rewrite list_lookup_fmap in Hi.
  destruct (seq 0 num_games !! i) as [k|] eqn:Hk; [|discriminate].
  apply lookup_seq in Hk as [-> _]. injection Hi as <-.
  unfold black_model. simpl. rewrite land_one_odd, <- Nat.negb_odd.
  split; [reflexivity|]. split; [reflexivity|]. now destruct (Nat.odd i).
Qed.

(** ** The tally of a paired evaluation *)

Section TallyFacts.
Context {MctsPlayer Coord : Type}.
Variable result : MctsPlayer -> spec_float.

Lemma attribute_win_counts model other_model
    (g : @pair_game MctsPlayer Coord) ms bound :
  counters_within bound ms -> bound < Int.max_int ->
  SFeqb (result (player g)) (result (other_player g)) = true ->
  exists ms',
    attribute_win result model other_model g ms = Done ms'
    /\ black_total ms'
       = black_total ms + (if SFltb float_zero (result (player g)) then 1 else 0)
    /\ white_total ms'
       = white_total ms + (if SFltb (result (player g)) float_zero then 1 else 0)
    /\ counters_within (bound + 1) ms'.
Proof using Type.
  intros (Hbc & Hwc & Hbp & Hwp) Hbound Hagree.
  unfold attribute_win. rewrite Hagree.
  assert (Hadd : forall x, 0 <= x <= bound -> Int.add x 1 = x + 1).
  { intros x Hx. apply Int_wrap_id.
    unfold Int.in_range, Int.min_int, Int.max_int in *. lia. }
  destruct (SFltb float_zero (result (player g))) eqn:Hpos.
  - rewrite (SFltb_zero_exclusive _ Hpos). eexists. split; [reflexivity|].
    unfold black_total, white_total, counters_within.
    destruct model; simpl; rewrite Hadd by assumption; repeat split; lia.
  - destruct (SFltb (result (player g)) float_zero) eqn:Hneg.
    + eexists. split; [reflexivity|].
      unfold black_total, white_total, counters_within.
      destruct other_model; simpl; rewrite Hadd by assumption;
        repeat split; lia.
    + eexists. split; [reflexivity|].
      unfold black_total, white_total, counters_within.
      repeat split; lia.
Qed.

Lemma tally_counts
    (games : list (ModelPtr * ModelPtr * @pair_game MctsPlayer Coord))
    ms bound :
  counters_within bound ms ->
  bound + Z.of_nat (length games) <= Int.max_int ->
  Forall (fun mg => SFeqb (result (player (snd mg)))
                          (result (other_player (snd mg))) = true) games ->
  exists ms',
    tally result games ms = Done ms'
    /\ black_total ms'
       = black_total ms
         + Z.of_nat (length (List.filter
                               (fun mg => SFltb float_zero
                                                (result (player (snd mg))))
                               games))
    /\ white_total ms'
       = white_total ms
         + Z.of_nat (length (List.filter
                               (fun mg => SFltb (result (player (snd mg)))
                                                float_zero)
                               games))
    /\ counters_within (bound + Z.of_nat (length games)) ms'.
Proof using Type.
  revert ms bound.
  induction games as [|[[model other_model] g] games IH]; intros ms bound Hc Hb Hall.
  - exists ms. simpl. rewrite !Z.add_0_r.
    split; [reflexivity|]. split; [reflexivity|]. split; [reflexivity | exact Hc].
  - inversion_clear Hall as [|? ? Hg Hall']. simpl in Hg.
    destruct (attribute_win_counts model other_model g ms bound Hc
                ltac:(simpl length in Hb; lia) Hg)
      as (ms1 & Hwin & Hb1 & Hw1 & Hc1).
    destruct (IH ms1 (bound + 1) Hc1 ltac:(simpl length in Hb; lia) Hall')
      as (ms' & Hrun & Hb' & Hw' & Hc').
    exists ms'. simpl tally. rewrite Hwin. split; [exact Hrun|].
    simpl List.filter. simpl snd.
    destruct (SFltb float_zero (result (player g)));
      destruct (SFltb (result (player g)) float_zero);
      simpl length; (split; [|split]);
      try (replace (bound + Z.of_nat (S (length games)))
             with (bound + 1 + Z.of_nat (length games)) by lia; exact Hc');
      lia.
Qed.
End TallyFacts.

(** X19: when the threads of a paired evaluation have ended and in each the
    two players agreed, the black wins counted over both models are the
    games with a result above zero and the white wins those with a result
    below zero; the wins never outnumber the games. *)
Theorem X19_pair_tally {MctsPlayer Coord : Type}
    (result : MctsPlayer -> spec_float)
    (games : list (ModelPtr * ModelPtr * @pair_game MctsPlayer Coord))
    (ms : Models) :
  counters_within 0 ms ->
  Z.of_nat (length games) <= Int.max_int ->
  Forall (fun mg => SFeqb (result (player (snd mg)))
                          (result (other_player (snd mg))) = true) games ->
  exists ms',
    tally result games ms = Done ms'
    /\ black_total ms'
       = Z.of_nat (length (List.filter
                             (fun mg => SFltb float_zero
                                              (result (player (snd mg))))
                             games))
    /\ white_total ms'
       = Z.of_nat (length (List.filter
                             (fun mg => SFltb (result (player (snd mg)))
                                              float_zero)
                             games))
    /\ total_wins ms' <= Z.of_nat (length games).
Proof.
  intros Hc Hb Hall.
  destruct (tally_counts result games ms 0 Hc ltac:(lia) Hall)
    as (ms' & Hrun & Hb' & Hw' & Hc').
  assert (Hzero : black_total ms = 0 /\ white_total ms = 0).
  { unfold black_total, white_total, counters_within in *. lia. }
  destruct Hzero as [Hb0 Hw0]. rewrite Hb0 in Hb'. rewrite Hw0 in Hw'.
  exists ms'. split; [exact Hrun|]. split; [lia|]. split; [lia|].
  assert (Htotal : total_wins ms' = black_total ms' + white_total ms')
    by (unfold total_wins, wins, black_total, white_total; lia).
  rewrite Htotal, Hb', Hw'.
  assert (Hdisjoint :
            (length (List.filter
                       (fun mg => SFltb float_zero (result (player (snd mg))))
                       games)
             + length (List.filter
                         (fun mg => SFltb (result (player (snd mg))) float_zero)
                         games)
             <= length games)%nat).
  { clear. induction games as [|mg games IH]; simpl; [lia|].
    destruct (SFltb float_zero (result (player (snd mg)))) eqn:Hpos.
    - rewrite (SFltb_zero_exclusive _ Hpos). simpl. lia.
    - destruct (SFltb (result (player (snd mg))) float_zero); simpl; lia. }
  lia.
Qed.

Lemma X19_pair_tally_witness :
  exists ms',
    tally (PairToy.result float_one)
          [(cur_model, prev_model, PairToy.finished);
           (prev_model, cur_model, PairToy.finished)] PairToy.no_wins
    = Done ms'
    /\ black_total ms' = 2.
Proof.
  destruct (X19_pair_tally (PairToy.result float_one)
              [(cur_model, prev_model, PairToy.finished);
               (prev_model, cur_model, PairToy.finished)] PairToy.no_wins)
    as (ms' & Hrun & Hblack & _).
  - unfold counters_within. simpl. lia.
  - unfold Int.max_int. simpl. lia.
  - repeat constructor.
  - exists ms'. split; [exact Hrun | exact Hblack].
Defined.

(** ** The threads of an evaluation against an engine *)

Lemma GtpEvaluator_Run_loop_spec thread_id count black white i t :
  GtpEvaluator_Run_loop thread_id count black white !! i = Some t ->
  gtp_thread_id t = (thread_id + i)%nat
  /\ black_results t = (if Nat.even i then black else white)
  /\ white_results t = (if Nat.even i then white else black)
  /\ gtp_is_black t = is_gtp_results (black_results t).
Proof.
  revert thread_id black white i.
  induction count as [|count IH]; intros thread_id black white i; simpl;
    [discriminate|].
  destruct i as [|i].
  - intros [= <-]. simpl. split; [lia|]. now repeat split.
  - intros H. destruct (IH _ _ _ _ H) as (Hid & Hb & Hw & Hg).
    assert (E : Nat.even (S i) = negb (Nat.even i))
      by (rewrite Nat.even_succ, <- Nat.negb_even; reflexivity).
    rewrite E. split; [lia|]. split; [|split; [|assumption]].
    + rewrite Hb. now destruct (Nat.even i).
    + rewrite Hw. now destruct (Nat.even i).
Qed.

Lemma GtpEvaluator_Run_loop_length thread_id count black white :
  length (GtpEvaluator_Run_loop thread_id count black white) = count.
Proof.
  revert thread_id black white. induction count as [|count IH];
    intros thread_id black white; simpl; [reflexivity | now rewrite IH].
Qed.

(** X20: [Run] gives the engine black in the threads with an odd number and
    white in the others, so that the check of thread 0 never fails; a result
    above zero is then counted for the engine as a black win exactly in the
    odd threads, and one below zero as a white win exactly in the even
    ones. *)
Theorem X20_gtp_threads (FLAGS_parallel_games i : nat) (t : gtp_thread) :
  GtpEvaluator_Run_threads FLAGS_parallel_games !! i = Some t ->
  length (GtpEvaluator_Run_threads FLAGS_parallel_games) = FLAGS_parallel_games
  /\ gtp_thread_id t = i
  /\ gtp_is_black t = Nat.odd i
  /\ black_results t = (if Nat.even i then mcts_results else gtp_results)
  /\ white_results t = (if Nat.even i then gtp_results else mcts_results)
  /\ GtpEvaluator_ThreadRun_check t = Done tt
  /\ (forall result rs,
        SFltb float_zero result = true ->
        GtpEvaluator_ThreadRun_end t result rs
        = update_gtp_results
            (if Nat.even i then mcts_results else gtp_results)
            incr_black_wins rs)
  /\ (forall result rs,
        SFltb result float_zero = true ->
        GtpEvaluator_ThreadRun_end t result rs
        = update_gtp_results
            (if Nat.even i then gtp_results else mcts_results)
            incr_white_wins rs)
  /\ (forall result rs,
        SFltb float_zero result = false -> SFltb result float_zero = false ->
        GtpEvaluator_ThreadRun_end t result rs = rs).
Proof.
  intros Ht. unfold GtpEvaluator_Run_threads in *.
  destruct (GtpEvaluator_Run_loop_spec _ _ _ _ _ _ Ht) as (Hid & Hb & Hw & Hg).
  simpl in Hid.
  split; [apply GtpEvaluator_Run_loop_length|]. split; [assumption|].
  assert (Hodd : gtp_is_black t = Nat.odd i).
  { rewrite Hg, Hb, <- Nat.negb_even. now destruct (Nat.even i). }
  split; [assumption|]. split; [assumption|]. split; [assumption|].
  split.
  { unfold GtpEvaluator_ThreadRun_check. rewrite Hid, Hodd.
    now destruct i. }
  unfold GtpEvaluator_ThreadRun_end. rewrite Hb, Hw.
  split; [|split].
  - intros result rs Hpos.
    now rewrite Hpos, (SFltb_zero_exclusive _ Hpos).
  - intros result rs Hneg. rewrite Hneg.
    destruct (SFltb float_zero result) eqn:Hpos; [|reflexivity].
    rewrite (SFltb_zero_exclusive _ Hpos) in Hneg. discriminate.
  - intros result rs -> ->. reflexivity.
Qed.

Lemma X20_gtp_threads_witness :
  GtpEvaluator_ThreadRun_check
    {| gtp_thread_id := 0; black_results := mcts_results;
       white_results := gtp_results; gtp_is_black := false |} = Done tt
  /\ gtp_is_black
       {| gtp_thread_id := 1; black_results := gtp_results;
          white_results := mcts_results; gtp_is_black := true |} = Nat.odd 1.
Proof.
  split.
  - apply (X20_gtp_threads 3 0). reflexivity.
  - apply (X20_gtp_threads 3 1). reflexivity.
Defined.

(** ** The positions of the puzzles *)

Section PuzzleFacts.
Context {MctsPlayer Coord : Type}.
Variable NewMctsPlayer : MctsPlayer.
Variable PlayMove : Coord -> MctsPlayer -> MctsPlayer.

Lemma last_replicate_S (n : nat) (x : MctsPlayer) :
  last (replicate (S n) x) = Some x.
Proof using Type.
  induction n as [|n IH]; [reflexivity|].
  change (replicate (S (S n)) x) with (x :: replicate (S n) x).
  simpl last. simpl in IH. exact IH.
Qed.

Lemma removelast_replicate_S (n : nat) (x : MctsPlayer) :
  removelast (replicate (S n) x) = replicate n x.
Proof using Type.
  induction n as [|n IH]; [reflexivity|].
  change (replicate (S (S n)) x) with (x :: replicate (S n) x).
  simpl removelast. simpl in IH. now rewrite IH.
Qed.

Lemma map_replicate (f : MctsPlayer -> MctsPlayer) (n : nat) (x : MctsPlayer) :
  List.map f (replicate n x) = replicate n (f x).
Proof using Type.
  induction n as [|n IH]; simpl; [reflexivity | now rewrite IH].
Qed.

Lemma game_puzzles_cons players move (moves : list (@Move Coord)) :
  game_puzzles PlayMove players (move :: moves)
  = match last players with
    | None => None
    | Some back =>
        match game_puzzles PlayMove
                (List.map (PlayMove (move_c move)) (removelast players)) moves
        with
        | None => None
        | Some puzzles => Some ((back, move) :: puzzles)
        end
    end.
Proof using Type. reflexivity. Qed.

(** From players that all stand at one position, the puzzle of move [j] of
    the game is that position with the moves before [j] played. *)
Lemma game_puzzles_spec (start : MctsPlayer) (moves : list (@Move Coord)) :
  exists puzzles,
    game_puzzles PlayMove (replicate (length moves) start) moves = Some puzzles
    /\ length puzzles = length moves
    /\ forall j move,
         moves !! j = Some move ->
         puzzles !! j
         = Some (List.fold_left (fun player m => PlayMove (move_c m) player)
                                (take j moves) start,
                 move).
Proof using Type.
  revert start. induction moves as [|move moves IH]; intros start.
  - exists []. split; [reflexivity|]. split; [reflexivity|]. discriminate.
  - cbn [length]. rewrite game_puzzles_cons.
    rewrite last_replicate_S, removelast_replicate_S, map_replicate.
    destruct (IH (PlayMove (move_c move) start)) as (puzzles & -> & Hlen & Hj).
    eexists. split; [reflexivity|]. split; [simpl; now rewrite Hlen|].
    intros [|j] m Hm.
    + injection Hm as <-. reflexivity.
    + simpl in Hm. simpl. now apply Hj.
Qed.
End PuzzleFacts.

(** X21: [Puzzle] makes one position for every move of every game: the
    position for move [j] of a game is a new player with the first [j]
    moves of that game played and no other, and it is paired with move [j];
    the positions of a game follow those of the games before it. *)
Theorem X21_puzzle_positions {MctsPlayer Coord : Type}
    (NewMctsPlayer : MctsPlayer) (PlayMove : Coord -> MctsPlayer -> MctsPlayer)
    (games : list (list (@Move Coord))) :
  exists puzzles,
    Puzzle_puzzles NewMctsPlayer PlayMove games = Some puzzles
    /\ length puzzles = length (List.concat games)
    /\ (Z.of_nat (length (List.concat games)) <= Int.max_int ->
        Puzzle_parallel_games games = Z.of_nat (length puzzles))
    /\ forall g moves j move,
         games !! g = Some moves ->
         moves !! j = Some move ->
         puzzles !! (length (List.concat (take g games)) + j)%nat
         = Some (replayed NewMctsPlayer PlayMove (take j moves), move).
Proof.
  assert (Hcount : forall (gs : list (list (@Move Coord))) n,
            0 <= n -> n + Z.of_nat (length (List.concat gs)) <= Int.max_int ->
            List.fold_left (fun n moves => Int.add n (Z.of_nat (length moves)))
                           gs n
            = n + Z.of_nat (length (List.concat gs))).
  { induction gs as [|moves gs IH]; intros n Hn Hmax; simpl in *; [lia|].
    rewrite length_app in *.
    assert (E : Int.add n (Z.of_nat (length moves)) = n + Z.of_nat (length moves)).
    { apply Int_wrap_id. unfold Int.in_range, Int.min_int. lia. }
    rewrite E, IH by lia. lia. }
  assert (Hpar : forall puzzles : list (MctsPlayer * @Move Coord),
            length puzzles = length (List.concat games) ->
            Z.of_nat (length (List.concat games)) <= Int.max_int ->
            Puzzle_parallel_games games = Z.of_nat (length puzzles)).
  { intros puzzles -> Hmax. unfold Puzzle_parallel_games.
    rewrite Hcount by lia. lia. }
  revert Hpar. clear Hcount. intros Hpar.
  cut (exists puzzles,
         Puzzle_puzzles NewMctsPlayer PlayMove games = Some puzzles
         /\ length puzzles = length (List.concat games)
         /\ forall g moves j move,
              games !! g = Some moves ->
              moves !! j = Some move ->
              puzzles !! (length (List.concat (take g games)) + j)%nat
              = Some (replayed NewMctsPlayer PlayMove (take j moves), move)).
  { intros (puzzles & H1 & H2 & H3). exists puzzles.
    split; [assumption|]. split; [assumption|]. split; [|assumption].
    now apply Hpar. }
  clear Hpar.
  induction games as [|moves games (puzzles' & Hrun & Hlen & Hpos)].
  - exists []. split; [reflexivity|]. split; [reflexivity|]. discriminate.
  - destruct (game_puzzles_spec PlayMove NewMctsPlayer moves)
      as (puzzles & Hgame & Hlen1 & Hj).
    exists (puzzles ++ puzzles'). simpl Puzzle_puzzles. rewrite Hgame, Hrun.
    split; [reflexivity|]. split.
    { simpl. now rewrite !length_app, Hlen, Hlen1. }
    intros [|g] moves0 j move Hg Hm.
    + injection Hg as <-. simpl. rewrite lookup_app_l.
      * now apply Hj.
      * rewrite Hlen1. eapply lookup_lt_Some. exact Hm.
    + simpl in Hg. simpl take. simpl List.concat.
      rewrite length_app, <- Nat.add_assoc, <- Hlen1.
      rewrite lookup_app_r by lia.
      replace (length puzzles + (length (List.concat (take g games)) + j)
               - length puzzles)%nat
        with (length (List.concat (take g games)) + j)%nat by lia.
      now apply (Hpos g moves0).
Qed.

(** ** Writing a game as SGF *)

Section SgfFacts.
Context {Coord : Type}.

Lemma sgf_moves_length write_comments log_names threshold name_b name_w i
    (history_b history_w : list (@HistoryEntry Coord)) :
  length history_b = length history_w ->
  length (sgf_moves write_comments log_names threshold name_b name_w i
                    history_b history_w)
  = length history_b.
Proof using Type.
  revert i history_w. induction history_b as [|eb hb IH];
    intros i [|ew hw] H; try discriminate; [reflexivity|].
  simpl. f_equal. apply IH. now injection H.
Qed.

Lemma sgf_moves_lookup write_comments log_names threshold name_b name_w i
    (history_b history_w : list (@HistoryEntry Coord)) j entry_b entry_w :
  history_b !! j = Some entry_b ->
  history_w !! j = Some entry_w ->
  sgf_moves write_comments log_names threshold name_b name_w i
            history_b history_w !! j
  = Some (let h := if Nat.even (i + j) then entry_b else entry_w in
          {| sgf_color := history_to_play h;
             sgf_c := history_c h;
             sgf_comment :=
               if write_comments then
                 if (i + j =? 0)%nat then
                   ("Resign Threshold: " ++ threshold ++ String line_feed ""
                      ++ history_comment h)%string
                 else if log_names then
                   ((if Nat.even (i + j) then name_b else name_w)
                      ++ String line_feed "" ++ history_comment h)%string
                 else history_comment h
               else EmptyString |}).
Proof using Type.
  revert i history_b history_w.
  induction j as [|j IH]; intros i [|eb hb] [|ew hw]; try discriminate.
  - intros [= ->] [= ->]. rewrite Nat.add_0_r. reflexivity.
  - intros Hb Hw. simpl in Hb, Hw.
    replace (i + S j)%nat with (S i + j)%nat by lia.
    exact (IH (S i) hb hw Hb Hw).
Qed.
End SgfFacts.

(** X22: [WriteSgf] is fatal exactly when the directory cannot be made, the
    two histories differ in length or the file cannot be written; otherwise
    it writes, under the directory, the file named after the game with
    [.sgf], with one move for each entry of the history: the moves of even
    number are read from the history of black's player and those of odd
    number from that of white's. *)
Theorem X22_write_sgf_moves {Coord : Type}
    (CreateSgfString : list (@MoveWithComment Coord) -> CreateSgfOptions -> string)
    (JoinPath : string -> string -> string)
    (RecursivelyCreateDir : string -> bool)
    (WriteFile : string -> string -> bool)
    (output_dir output_name : string) (player_b player_w : @SgfPlayer Coord)
    (name_b name_w : string) (write_comments : bool) :
  let run := WriteSgf CreateSgfString JoinPath RecursivelyCreateDir WriteFile
                      output_dir output_name player_b name_b player_w name_w
                      write_comments in
  let moves := sgf_moves write_comments (negb (String.eqb name_b name_w))
                         (sgf_resign_threshold player_b) name_b name_w 0
                         (sgf_history player_b) (sgf_history player_w) in
  (RecursivelyCreateDir output_dir = false -> run = Fatal)
  /\ (length (sgf_history player_b) <> length (sgf_history player_w) ->
      run = Fatal)
  /\ (forall path text,
        run = Done (path, text) ->
        RecursivelyCreateDir output_dir = true
        /\ length (sgf_history player_b) = length (sgf_history player_w)
        /\ path = JoinPath output_dir (output_name ++ ".sgf")%string
        /\ WriteFile path text = true
        /\ (exists options,
              text = CreateSgfString moves options
              /\ options_black_name options = name_b
              /\ options_white_name options = name_w
              /\ options_result options = sgf_result_string player_b)
        /\ length moves = length (sgf_history player_b)
        /\ (forall j move,
              moves !! j = Some move ->
              exists entry,
                (if Nat.even j then sgf_history player_b
                 else sgf_history player_w) !! j = Some entry
                /\ sgf_color move = history_to_play entry
                /\ sgf_c move = history_c entry)).
Proof.
  intros run moves. subst run. unfold WriteSgf.
  split; [now intros ->|]. split.
  { intros Hne. destruct (RecursivelyCreateDir output_dir); [|reflexivity].
    apply Nat.eqb_neq in Hne. now rewrite Hne. }
  intros path text.
  destruct (RecursivelyCreateDir output_dir); [|discriminate].
  destruct (Nat.eqb_spec (length (sgf_history player_b))
                         (length (sgf_history player_w))) as [Hlen|];
    [|discriminate].
  cbn [negb]. cbv zeta. fold moves.
  destruct (WriteFile _ _) eqn:Hwrite; [|discriminate].
  cbn [negb]. intros [= <- <-].
  split; [reflexivity|]. split; [assumption|]. split; [reflexivity|].
  split; [assumption|]. split.
  { eexists. split; [reflexivity|]. now repeat split. }
  pose proof (sgf_moves_length write_comments (negb (String.eqb name_b name_w))
                (sgf_resign_threshold player_b) name_b name_w 0 _ _ Hlen)
    as Hmoves.
  fold moves in Hmoves. split; [assumption|].
  intros j move Hj.
  assert (Hlt : (j < length (sgf_history player_b))%nat).
  { rewrite <- Hmoves. eapply lookup_lt_Some. exact Hj. }
  destruct (lookup_lt_is_Some_2 (sgf_history player_b) j Hlt) as [eb Hb].
  destruct (lookup_lt_is_Some_2 (sgf_history player_w) j ltac:(lia)) as [ew Hw].
  unfold moves in Hj.
  rewrite (sgf_moves_lookup _ _ _ _ _ 0 _ _ j eb ew Hb Hw) in Hj.
  cbv zeta in Hj. simpl Nat.add in Hj. injection Hj as <-. simpl.
  destruct (Nat.even j); eauto.
Qed.

(** X23: without comments every move is written with an empty comment.  With
    comments, the first move carries the resignation threshold before its
    comment; a later move carries the name of the side that made it before
    its comment when the two names differ, and its comment alone when they
    are the same, as they are when one player is written for both sides. *)
Theorem X23_write_sgf_comments {Coord : Type}
    (player_b player_w : @SgfPlayer Coord) (name_b name_w : string)
    (write_comments : bool) (j : nat) (move : @MoveWithComment Coord) :
  sgf_moves write_comments (negb (String.eqb name_b name_w))
            (sgf_resign_threshold player_b) name_b name_w 0
            (sgf_history player_b) (sgf_history player_w) !! j = Some move ->
  length (sgf_history player_b) = length (sgf_history player_w) ->
  exists entry,
    (if Nat.even j then sgf_history player_b else sgf_history player_w) !! j
    = Some entry
    /\ (write_comments = false -> sgf_comment move = EmptyString)
    /\ (write_comments = true -> j = 0%nat ->
        sgf_comment move
        = ("Resign Threshold: " ++ sgf_resign_threshold player_b
             ++ String line_feed "" ++ history_comment entry)%string)
    /\ (write_comments = true -> j <> 0%nat -> name_b <> name_w ->
        sgf_comment move
        = ((if Nat.even j then name_b else name_w) ++ String line_feed ""
             ++ history_comment entry)%string)
    /\ (write_comments = true -> j <> 0%nat -> name_b = name_w ->
        sgf_comment move = history_comment entry).
Proof.
  intros Hj Hlen.
  assert (Hlt : (j < length (sgf_history player_b))%nat).
  { rewrite <- (sgf_moves_length write_comments
                  (negb (String.eqb name_b name_w))
                  (sgf_resign_threshold player_b) name_b name_w 0 _ _ Hlen).
    eapply lookup_lt_Some. exact Hj. }
  destruct (lookup_lt_is_Some_2 (sgf_history player_b) j Hlt) as [eb Hb].
  destruct (lookup_lt_is_Some_2 (sgf_history player_w) j ltac:(lia)) as [ew Hw].
  rewrite (sgf_moves_lookup _ _ _ _ _ 0 _ _ j eb ew Hb Hw) in Hj.
  cbv zeta in Hj. simpl Nat.add in Hj. injection Hj as <-. simpl.
  exists (if Nat.even j then eb else ew).
  split; [now destruct (Nat.even j)|].
  split; [now intros ->|]. split.
  { intros -> ->. reflexivity. }
  split.
  - intros -> Hne Hnames. apply Nat.eqb_neq in Hne. rewrite Hne.
    apply String.eqb_neq in Hnames. now rewrite Hnames.
  - intros -> Hne Hnames. apply Nat.eqb_neq in Hne. rewrite Hne.
    apply String.eqb_eq in Hnames. now rewrite Hnames.
Qed.

Lemma X23_write_sgf_comments_witness :
  exists entry,
    sgf_history example_sgf_player !! 1%nat = Some entry
    /\ history_comment entry = "second"%string.
Proof.
  destruct (X23_write_sgf_comments example_sgf_player example_sgf_player
              "model" "model" true 1
              {| sgf_color := kWhite; sgf_c := "Q16"%string;
                 sgf_comment := "second" |} eq_refl eq_refl)
    as (entry & Hentry & _ & _ & _ & Hsame).
  exists entry. split; [exact Hentry|].
  symmetry. apply Hsame; [reflexivity | discriminate | reflexivity].
Defined.

(** ** The two players of a paired game *)

(** X24: the two players of a thread are played the same moves: if playing
    a move adds it to what a player has seen and a search adds nothing,
    then two players that start alike are alike when the game ends, both
    having seen the moves of the game in order. *)
Theorem X24_mirrored_players {MctsPlayer Coord : Type}
    (SuggestMove : ModelPtr -> MctsPlayer -> Coord * MctsPlayer)
    (PlayMove : Coord -> MctsPlayer -> MctsPlayer)
    (game_over : MctsPlayer -> bool)
    (seen : MctsPlayer -> list Coord)
    (fuel : nat) (g g' : @pair_game MctsPlayer Coord) :
  (forall c p, seen (PlayMove c p) = seen p ++ [c]) ->
  (forall m p, seen (snd (SuggestMove m p)) = seen p) ->
  seen (player g) = seen (other_player g) ->
  play_pair SuggestMove PlayMove game_over fuel g = Some g' ->
  exists played,
    moves g' = moves g ++ played
    /\ seen (player g') = seen (player g) ++ List.map snd played
    /\ seen (other_player g') = seen (player g) ++ List.map snd played.
Proof.
  intros Hplay Hsearch. revert g.
  induction fuel as [|fuel IH]; intros g Hsame; simpl.
  - destruct (game_over (player g)); [|discriminate].
    intros [= <-]. exists []. rewrite !app_nil_r. now repeat split.
  - destruct (game_over (player g)).
    { intros [= <-]. exists []. rewrite !app_nil_r. now repeat split. }
    pose proof (Hsearch (factory g) (player g)) as Hs.
    destruct (SuggestMove (factory g) (player g)) as [move p]. simpl in Hs.
    intros H. apply IH in H.
    + destruct H as (played & Hm & Hp & Ho). simpl in *.
      exists ((factory g, move) :: played).
      rewrite Hm, Hp, Ho, Hplay, <- Hsame, <- !app_assoc. now repeat split.
    + simpl. now rewrite !Hplay, Hs, Hsame.
Qed.

Lemma X24_mirrored_players_witness :
  exists played,
    moves PairToy.finished = [] ++ played
    /\ List.length played = 2%nat.
Proof.
  destruct (X24_mirrored_players PairToy.SuggestMove PairToy.PlayMove
              PairToy.game_over (fun p => replicate p tt) 5
              (pair_start PairToy.NewMctsPlayer cur_model prev_model
                          PairToy.no_wins)
              PairToy.finished)
    as (played & Hmoves & _).
  - intros [] p. unfold PairToy.PlayMove.
    induction p as [|p IH]; [reflexivity|].
    simpl. simpl in IH. now rewrite <- IH.
  - reflexivity.
  - reflexivity.
  - reflexivity.
  - exists played. split; [exact Hmoves|].
    simpl in Hmoves. now rewrite <- Hmoves.
Defined.

(** ** Self-play, game after game *)

Lemma ThreadRun_reload_done files self self' :
  ThreadRun_reload files self = Done self' ->
  FLAGS_model self' = FLAGS_model self
  /\ forall flag, is_Some (FLAGS self' !! flag) <-> is_Some (FLAGS self !! flag).
Proof.
  unfold ThreadRun_reload.
  destruct (MaybeReloadFlags files self) as [[s calls]|] eqn:E; [|discriminate].
  destruct (String.eqb_spec (FLAGS_model self) (FLAGS_model s)) as [Hm|];
    [|discriminate].
  intros [= <-]. split; [congruence|].
  apply MaybeReloadFlags_done in E as [E _].
  intros flag. exact (apply_overrides_registered _ _ _ _ flag E).
Qed.

(** X25: however the flags file changes between the games of a thread, a
    thread that gets to start its last game plays it with the model path
    and the set of flags that it started with. *)
Theorem X25_model_kept_across_games (files_at : list Files)
    (self self' : SelfPlayer) :
  ThreadRun_games files_at self = Done self' ->
  FLAGS_model self' = FLAGS_model self
  /\ forall flag, is_Some (FLAGS self' !! flag) <-> is_Some (FLAGS self !! flag).
Proof.
  revert self. induction files_at as [|files files_at IH]; intros self; simpl.
  - intros [= <-]. now split.
  - destruct (ThreadRun_reload files self) as [s|] eqn:E; [|discriminate].
    intros H. apply IH in H as [Hm Hf].
    apply ThreadRun_reload_done in E as [Hm' Hf'].
    split; [congruence|]. intros flag. now rewrite Hf, Hf'.
Qed.

Lemma X25_model_kept_across_games_witness :
  exists self',
    ThreadRun_games [komi_files; file_at_5 "--komi=0.5"; komi_files] example_self
    = Done self'
    /\ FLAGS_model self' = "old.pb"%string.
Proof.
  eexists. split; [vm_compute; reflexivity|].
  eapply (X25_model_kept_across_games
            [komi_files; file_at_5 "--komi=0.5"; komi_files] example_self).
  vm_compute. reflexivity.
Defined.

(** ** The barrier counts calls *)

Lemma run_snoc schedule ia s :
  Barrier.run (schedule ++ [ia]) s = Barrier.step (Barrier.run schedule s) ia.
Proof. unfold Barrier.run. now rewrite fold_left_app. Qed.

(** X26: as long as no thread leaves, a barrier for [num_games] counts the
    calls of [Wait], whichever threads make them: after [k] calls it is in
    generation [k / num_games] with [k mod num_games] calls counted, and
    every thread is running. *)
Theorem X26_wait_counts_calls (num_games : nat)
    (schedule : list (nat * Barrier.action)) :
  (0 < num_games)%nat ->
  Z.of_nat num_games <= Int.max_int ->
  Z.of_nat (length schedule) < SizeT.modulus - 1 ->
  Forall (fun ia => (fst ia < num_games)%nat /\ snd ia = Barrier.CallWait)
         schedule ->
  let s := Barrier.run schedule (Barrier.start num_games) in
  Barrier.threads s = replicate num_games Barrier.Running
  /\ Barrier.count_ (Barrier.barrier s) = Z.of_nat num_games
  /\ Barrier.num_waiting_ (Barrier.barrier s)
     = Z.of_nat (length schedule) mod Z.of_nat num_games
  /\ Barrier.generation_ (Barrier.barrier s)
     = Z.of_nat (length schedule) / Z.of_nat num_games.
Proof.
  intros Hpos Hn. cbv zeta.
  induction schedule as [|[i a] schedule IH] using rev_ind; intros Hlen Hall.
  - simpl. rewrite Z.mod_0_l, Z.div_0_l by lia. now repeat split.
  - apply Forall_app in Hall as [Hall Hia].
    inversion_clear Hia as [|? ? [Hi Ha] _]. simpl in Hi, Ha. subst a.
    rewrite length_app in *. simpl length in *.
    destruct (IH ltac:(lia) Hall) as (Hth & Hc & Hw & Hg).
    rewrite run_snoc. unfold Barrier.step.
    set (s := Barrier.run schedule (Barrier.start num_games)) in *.
    assert (Hrun : Barrier.threads s !! i = Some Barrier.Running).
    { rewrite Hth. now apply lookup_replicate_2. }
    rewrite Hrun.
    set (k := Z.of_nat (length schedule)) in *.
    set (n := Z.of_nat num_games) in *.
    assert (Hk : 0 <= k) by (subst k; lia).
    assert (Hn0 : 0 < n) by (subst n; lia).
    pose proof (Z.div_mod k n ltac:(lia)) as Hdm.
    pose proof (Z.mod_pos_bound k n Hn0) as Hr.
    assert (Hq : 0 <= k / n <= k).
    { split; [apply Z.div_pos; lia|]. apply Z.div_le_upper_bound; nia. }
    replace (Z.of_nat (length schedule + 1)) with (k + 1) by (subst k; lia).
    pose proof (Wait_returns (Barrier.barrier s)) as Hret.
    destruct (Barrier.Wait (Barrier.barrier s)) as [b w] eqn:HW.
    simpl in Hret. subst w. simpl.
    rewrite (list_insert_id _ _ _ Hrun). split; [assumption|].
    unfold Barrier.Wait in HW. simpl in HW. rewrite Hw, Hc, Hg in HW.
    assert (Hincr : SizeT.incr (k mod n) = k mod n + 1).
    { apply SizeT_wrap_id. unfold SizeT.in_range, SizeT.modulus.
      unfold Int.max_int in Hn. lia. }
    rewrite Hincr in HW.
    destruct (Z.eqb_spec (k mod n + 1) n) as [E|E]; injection HW as <-; simpl.
    + split; [reflexivity|]. split.
      * apply Z.mod_unique with (q := k / n + 1); lia.
      * rewrite <- (Z.div_unique (k + 1) n (k / n + 1) 0) by lia.
        apply SizeT_wrap_id. unfold SizeT.in_range. lia.
    + split; [reflexivity|]. split.
      * apply Z.mod_unique with (q := k / n); lia.
      * apply Z.div_unique with (r := k mod n + 1); lia.
Qed.

Lemma X26_wait_counts_calls_witness :
  let s := Barrier.run [(0%nat, Barrier.CallWait); (0%nat, Barrier.CallWait);
                        (0%nat, Barrier.CallWait)] (Barrier.start 2) in
  Barrier.num_waiting_ (Barrier.barrier s) = 3 mod 2
  /\ Barrier.generation_ (Barrier.barrier s) = 3 / 2.
Proof.
  destruct (X26_wait_counts_calls 2
              [(0%nat, Barrier.CallWait); (0%nat, Barrier.CallWait);
               (0%nat, Barrier.CallWait)])
    as (_ & _ & Hw & Hg).
  - lia.
  - unfold Int.max_int. lia.
  - unfold SizeT.modulus. simpl. lia.
  - repeat constructor.
  - split; [exact Hw | exact Hg].
Defined.
